(** * The background-job supervisor of code-intel

    A shallow embedding of [scripts/jobs.py] (job store, launcher,
    reconciler, cancellation, notification delivery, cleanup), of the
    completion watcher that [submit_job] materialises per job
    ([jobs/artifacts/watcher_N.py]) and of [guard_job] from
    [scripts/guard.py], followed by the properties of the supervisor's
    specification.

    The two SQLite tables are lists of rows in rowid order, every SQL
    statement is the list operation it denotes, the artifact directory is a
    finite map from file names to contents, and everything the program asks
    of its environment (the clock, the process table, [Popen]) is read from
    an [Env]. *)

From Stdlib Require Import ZArith String Ascii List Lia.
From stdpp Require Import base tactics option list sorting gmap strings pretty.

Local Open Scope string_scope.
Local Open Scope list_scope.
Local Open Scope Z_scope.

(** ** Data model *)

(** The values of the [status] column: ['running'], ['done'], ['failed'],
    ['cancelled']. *)
Inductive Status : Type := Running | Done | Failed | Cancelled.

#[global] Instance Status_eq_dec : EqDecision Status.
Proof. solve_decision. Defined.

(** [status IN ('done', 'failed', 'cancelled')]. *)
Definition is_terminal (s : Status) : bool :=
  match s with
  | Running => false
  | Done | Failed | Cancelled => true
  end.

(** [now_iso()] returns the ISO-8601 rendering of a UTC instant.  These
    renderings compare as text the way the instants compare, so a timestamp
    is kept as the instant itself (microseconds). *)
Definition Timestamp : Type := Z.

(** Files of [ARTIFACTS_DIR].  Every name the program builds there has the
    shape [f"{stem}_{id}{suffix}"]: [job_7.out], [job_7.err],
    [watcher_7.py]. *)
Inductive Stem : Type := stem_job | stem_watcher.
Inductive Suffix : Type := dot_out | dot_err | dot_py.

Record Path : Type := mkPath { stem : Stem; owner : Z; suffix : Suffix }.

#[global] Instance Stem_eq_dec : EqDecision Stem.
Proof. solve_decision. Defined.
#[global] Instance Suffix_eq_dec : EqDecision Suffix.
Proof. solve_decision. Defined.
#[global] Instance Path_eq_dec : EqDecision Path.
Proof. solve_decision. Defined.

#[global] Instance Stem_countable : Countable Stem.
Proof.
  refine (inj_countable' (λ s, match s with stem_job => false | stem_watcher => true end)
            (λ b : bool, if b then stem_watcher else stem_job) _).
  by intros [].
Defined.
#[global] Instance Suffix_countable : Countable Suffix.
Proof.
  refine (inj_countable' (λ s, match s with dot_out => 0%nat | dot_err => 1%nat | dot_py => 2%nat end)
            (λ n : nat, match n with O => dot_out | S O => dot_err | _ => dot_py end) _).
  by intros [].
Defined.
#[global] Instance Path_countable : Countable Path.
Proof.
  refine (inj_countable' (λ p, (stem p, owner p, suffix p))
            (λ t, mkPath t.1.1 t.1.2 t.2) _).
  by intros [].
Defined.

(** [ARTIFACTS_DIR / f"job_{job_id}.out"], [... .err] and
    [ARTIFACTS_DIR / f"watcher_{job_id}.py"]. *)
Definition out_path (job_id : Z) : Path := mkPath stem_job job_id dot_out.
Definition err_path (job_id : Z) : Path := mkPath stem_job job_id dot_err.
Definition watcher_path (job_id : Z) : Path := mkPath stem_watcher job_id dot_py.

(** [Path(p).with_suffix(ext)]. *)
Definition with_suffix (p : Path) (ext : Suffix) : Path :=
  mkPath (stem p) (owner p) ext.

(** One row of the [jobs] table. *)
Record Job : Type := mkJob {
  j_id : Z;
  j_command : string;
  j_label : option string;
  j_status : Status;
  j_pid : option Z;
  j_created_at : Timestamp;
  j_finished_at : option Timestamp;
  j_exit_code : option Z;
  j_output_file : option Path;
  j_error : option string
}.

(** One row of the [notifications] table; [delivered] is an INTEGER column
    with default 0. *)
Record Notification : Type := mkNotification {
  n_id : Z;
  n_job_id : Z;
  n_message : string;
  n_created_at : Timestamp;
  n_delivered : Z
}.

(** The file [jobs.db]: both tables in rowid order, and for each the
    largest rowid it ever held (SQLite's [sqlite_sequence], which
    AUTOINCREMENT consults). *)
Record Database : Type := mkDatabase {
  jobs : list Job;
  jobs_seq : Z;
  notifications : list Notification;
  notifications_seq : Z
}.

Definition empty_db : Database := mkDatabase [] 0 [] 0.

(** The constants a watcher script is generated with: [JOB_ID], [PID],
    [out_file], [err_file]. *)
Record Watcher : Type := mkWatcher {
  w_job_id : Z;
  w_pid : Z;
  w_out_file : Path;
  w_err_file : Path
}.

#[global] Instance Watcher_eq_dec : EqDecision Watcher.
Proof. solve_decision. Defined.

(** What a file of the artifact directory holds: captured text, as
    reading it in text mode returns it, or a generated watcher script. *)
Inductive FileData : Type :=
| Text (s : string)
| Script (wt : Watcher).

Inductive Signal : Type := SIGTERM.

(** The calls into the process table: [os.kill(pid, 0)], [os.getpgid(pid)],
    [os.killpg(pgid, sig)]. *)
Inductive Syscall : Type :=
| Kill0 (pid : Z)
| Getpgid (pid : Z)
| Killpg (pgid : Z) (sig : Signal).

(** One row of [audit.db]'s [audit_log] as [log_audit] writes it. *)
Record AuditEntry : Type := mkAuditEntry {
  a_timestamp : Timestamp;
  a_action : string;
  a_target : option string;
  a_command : option string;
  a_result : string;
  a_reason : option string
}.

(** The lines the commands print, one constructor per [print] call that a
    property below refers to. *)
Inductive Output : Type :=
| PrintSubmitted (job_id pid : Z)          (* "Job #{job_id} submitted (PID {pid})" and the lines after it *)
| PrintNotFound (job_id : Z)               (* "Job #{job_id} not found." *)
| PrintJob (job : Job)                     (* the status report of [get_job_status] *)
| PrintResult (job : Job)                  (* whatever [get_job_result] prints for the job *)
| PrintNoJobs                              (* "No jobs found." *)
| PrintJobLine (job : Job)                 (* one entry of [list_jobs] *)
| PrintAlready (job_id : Z) (s : Status)   (* "Job #{job_id} is already {status}." *)
| PrintSentSigterm (job_id pid : Z)        (* "Sent SIGTERM to Job #{job_id} (PID {pid})" *)
| PrintProcessGone (job_id : Z)            (* "Process already gone for Job #{job_id}" *)
| PrintCancelled (job_id : Z)              (* "Job #{job_id} cancelled." *)
| PrintNoPending                           (* "No pending notifications." *)
| PrintMessage (message : string)          (* [print(row['message'])] and the blank line *)
| PrintNothingToClean                      (* "Nothing to clean." *)
| PrintCleaned (n : nat).                  (* "Cleaned {len(rows)} old jobs." *)

(** Everything the programs act on. *)
Record World : Type := mkWorld {
  jobs_db : option Database;          (* [DB_PATH]; [None] while the file does not exist *)
  files : gmap Path FileData;         (* [ARTIFACTS_DIR] *)
  watchers : list Watcher;            (* the watcher processes spawned so far *)
  syscalls : list Syscall;            (* the process-table calls made so far, oldest first *)
  audit_log : list AuditEntry;        (* [audit.db] *)
  stdout : list Output;               (* what was printed, oldest first *)
  ticks : nat                         (* how often the clock was read *)
}.

Definition initial_world : World := mkWorld None ∅ [] [] [] [] 0%nat.

(** What the programs ask of the operating system. *)
Record Env : Type := mkEnv {
  clock : nat → Timestamp;        (* the n-th reading of [datetime.now(timezone.utc)] *)
  kill0 : Z → bool;               (* [os.kill(pid, 0)] returns instead of raising OSError *)
  getpgid : Z → option Z;         (* [os.getpgid(pid)]; [None] when it raises *)
  killpg : Z → bool;              (* [os.killpg(pgid, SIGTERM)] returns instead of raising *)
  popen : string → option positive; (* pid of [Popen(command, shell=True, ...)]; [None] when it raises *)
  popen_watcher : bool            (* [Popen([sys.executable, watcher_path], ...)] returns *)
}.

(** ** Updating records *)

Definition set_jobs (f : list Job → list Job) (db : Database) : Database :=
  mkDatabase (f (jobs db)) (jobs_seq db) (notifications db) (notifications_seq db).

Definition set_notifications (f : list Notification → list Notification)
    (db : Database) : Database :=
  mkDatabase (jobs db) (jobs_seq db) (f (notifications db)) (notifications_seq db).

Definition set_status (s : Status) (j : Job) : Job :=
  mkJob (j_id j) (j_command j) (j_label j) s (j_pid j) (j_created_at j)
        (j_finished_at j) (j_exit_code j) (j_output_file j) (j_error j).

Definition set_finished_at (t : option Timestamp) (j : Job) : Job :=
  mkJob (j_id j) (j_command j) (j_label j) (j_status j) (j_pid j) (j_created_at j)
        t (j_exit_code j) (j_output_file j) (j_error j).

Definition set_exit_code (c : option Z) (j : Job) : Job :=
  mkJob (j_id j) (j_command j) (j_label j) (j_status j) (j_pid j) (j_created_at j)
        (j_finished_at j) c (j_output_file j) (j_error j).

Definition set_error (s : option string) (j : Job) : Job :=
  mkJob (j_id j) (j_command j) (j_label j) (j_status j) (j_pid j) (j_created_at j)
        (j_finished_at j) (j_exit_code j) (j_output_file j) s.

Definition set_pid (p : option Z) (j : Job) : Job :=
  mkJob (j_id j) (j_command j) (j_label j) (j_status j) p (j_created_at j)
        (j_finished_at j) (j_exit_code j) (j_output_file j) (j_error j).

Definition set_output_file (f : option Path) (j : Job) : Job :=
  mkJob (j_id j) (j_command j) (j_label j) (j_status j) (j_pid j) (j_created_at j)
        (j_finished_at j) (j_exit_code j) f (j_error j).

Definition set_delivered (d : Z) (n : Notification) : Notification :=
  mkNotification (n_id n) (n_job_id n) (n_message n) (n_created_at n) d.

Definition with_jobs_db (d : option Database) (w : World) : World :=
  mkWorld d (files w) (watchers w) (syscalls w) (audit_log w) (stdout w) (ticks w).

Definition with_files (f : gmap Path FileData) (w : World) : World :=
  mkWorld (jobs_db w) f (watchers w) (syscalls w) (audit_log w) (stdout w) (ticks w).

Definition spawn (wt : Watcher) (w : World) : World :=
  mkWorld (jobs_db w) (files w) (watchers w ++ [wt]) (syscalls w) (audit_log w)
          (stdout w) (ticks w).

Definition syscall (c : Syscall) (w : World) : World :=
  mkWorld (jobs_db w) (files w) (watchers w) (syscalls w ++ [c])
          (audit_log w) (stdout w) (ticks w).

Definition append_audit (a : AuditEntry) (w : World) : World :=
  mkWorld (jobs_db w) (files w) (watchers w) (syscalls w) (audit_log w ++ [a])
          (stdout w) (ticks w).

Definition print (o : Output) (w : World) : World :=
  mkWorld (jobs_db w) (files w) (watchers w) (syscalls w) (audit_log w)
          (stdout w ++ [o]) (ticks w).

(** [now_iso()]: one more reading of the clock. *)
Definition now_iso (e : Env) (w : World) : Timestamp * World :=
  (clock e (ticks w),
   mkWorld (jobs_db w) (files w) (watchers w) (syscalls w) (audit_log w)
           (stdout w) (S (ticks w))).

(** ** The connection

    [init()] creates [jobs.db] with its two empty tables when the file is
    missing and leaves an existing one alone; [sqlite3.connect(DB_PATH)]
    then sees the database [conn w]. *)
Definition conn (w : World) : Database := default empty_db (jobs_db w).

Definition init (w : World) : World := with_jobs_db (Some (conn w)) w.

(** Run one statement (and commit it). *)
Definition exec (f : Database → Database) (w : World) : World :=
  with_jobs_db (Some (f (conn w))) w.

(** ** SQL statements *)

(** [SELECT * FROM jobs WHERE id = ?] followed by [fetchone()]. *)
Definition select_job (job_id : Z) (db : Database) : option Job :=
  head (filter (λ j, j_id j = job_id) (jobs db)).

(** [UPDATE jobs SET ... WHERE id = ?], with [f] the assignments. *)
Definition where_id (job_id : Z) (f : Job → Job) (j : Job) : Job :=
  if decide (j_id j = job_id) then f j else j.

Definition update_job (job_id : Z) (f : Job → Job) (db : Database) : Database :=
  set_jobs (fmap (where_id job_id f)) db.

(** The rowid AUTOINCREMENT hands out: one more than the largest the table
    ever held. *)
Definition next_rowid (seq : Z) (ids : list Z) : Z := foldr Z.max seq ids + 1.

(** [INSERT INTO jobs (command, label, status, created_at)
     VALUES (?, ?, 'running', ?)] and [cursor.lastrowid]. *)
Definition insert_job (command : string) (label : option string) (t : Timestamp)
    (db : Database) : Z * Database :=
  let job_id := next_rowid (jobs_seq db) (j_id <$> jobs db) in
  (job_id,
   mkDatabase
     (jobs db ++ [mkJob job_id command label Running None t None None None None])
     job_id (notifications db) (notifications_seq db)).

(** [INSERT INTO notifications (job_id, message, created_at) VALUES (?, ?, ?)]. *)
Definition insert_notification (job_id : Z) (message : string) (t : Timestamp)
    (db : Database) : Database :=
  let nid := next_rowid (notifications_seq db) (n_id <$> notifications db) in
  mkDatabase (jobs db) (jobs_seq db)
    (notifications db ++ [mkNotification nid job_id message t 0]) nid.

(** [UPDATE notifications SET delivered = 1 WHERE id = ?]. *)
Definition mark_delivered (nid : Z) (db : Database) : Database :=
  set_notifications
    (fmap (λ n, if decide (n_id n = nid) then set_delivered 1 n else n)) db.

(** [DELETE FROM notifications WHERE job_id = ?]. *)
Definition delete_notifications (job_id : Z) (db : Database) : Database :=
  set_notifications (filter (λ n, n_job_id n ≠ job_id)) db.

(** [DELETE FROM jobs WHERE id = ?]. *)
Definition delete_job (job_id : Z) (db : Database) : Database :=
  set_jobs (filter (λ j, j_id j ≠ job_id)) db.

(** [ORDER BY id DESC] and [ORDER BY created_at]. *)
Definition id_desc (a b : Job) : Prop := j_id b ≤ j_id a.
Definition created_asc (a b : Notification) : Prop := n_created_at a ≤ n_created_at b.

#[global] Instance id_desc_dec : RelDecision id_desc.
Proof. intros a b. unfold id_desc. apply _. Defined.
#[global] Instance created_asc_dec : RelDecision created_asc.
Proof. intros a b. unfold created_asc. apply _. Defined.

#[global] Instance id_desc_trans : Transitive id_desc.
Proof. intros a b c. unfold id_desc. lia. Qed.
#[global] Instance id_desc_total : Total id_desc.
Proof. intros a b. unfold id_desc. lia. Qed.
#[global] Instance created_asc_trans : Transitive created_asc.
Proof. intros a b c. unfold created_asc. lia. Qed.
#[global] Instance created_asc_total : Total created_asc.
Proof. intros a b. unfold created_asc. lia. Qed.

(** [LIMIT n]: a negative limit means no limit. *)
Definition sql_limit {A} (n : Z) (l : list A) : list A :=
  if decide (n < 0) then l else take (Z.to_nat n) l.

(** [LIMIT -1 OFFSET k]: a negative offset skips nothing. *)
Definition sql_offset {A} (k : Z) (l : list A) : list A := drop (Z.to_nat k) l.

(** [SELECT COUNT( * ) FROM jobs WHERE status='running']. *)
Definition running_count (db : Database) : Z :=
  Z.of_nat (length (filter (λ j, j_status j = Running) (jobs db))).

(** ** Python text operations *)

(** [str.isspace] on the code points below 256. *)
Definition py_isspace (c : ascii) : bool :=
  let n := N_of_ascii c in
  ((9 <=? n) && (n <=? 13) || (28 <=? n) && (n <=? 32) || (n =? 133) || (n =? 160))%N.

Fixpoint lstrip (s : string) : string :=
  match s with
  | String c s' => if py_isspace c then lstrip s' else s
  | EmptyString => EmptyString
  end.

Definition rstrip (s : string) : string := String.rev (lstrip (String.rev s)).

(** [s.strip()]. *)
Definition py_strip (s : string) : string := rstrip (lstrip s).

(** [s[:n]]. *)
Fixpoint str_take (n : nat) (s : string) : string :=
  match n, s with
  | S n', String c s' => String c (str_take n' s')
  | _, _ => EmptyString
  end.

Definition newline : ascii := "010"%char.

(** [f.readlines()]: the lines of a text, each with its newline. *)
Fixpoint readlines_go (cur : string) (s : string) : list string :=
  match s with
  | EmptyString => match cur with EmptyString => [] | _ => [cur] end
  | String c s' =>
      if decide (c = newline)
      then (cur +:+ String c EmptyString) :: readlines_go EmptyString s'
      else readlines_go (cur +:+ String c EmptyString) s'
  end.

Definition readlines (s : string) : list string := readlines_go EmptyString s.

(** [s.split('\n')]. *)
Fixpoint split_nl (s : string) : list string :=
  match s with
  | EmptyString => [EmptyString]
  | String c s' =>
      if decide (c = newline) then EmptyString :: split_nl s'
      else match split_nl s' with
           | x :: r => String c x :: r
           | [] => [String c EmptyString]
           end
  end.

(** [l[-n:]] for a positive [n]. *)
Definition last_n {A} (n : nat) (l : list A) : list A := drop (length l - n) l.

(** Truth value of a nullable INTEGER: [None] and [0] are false. *)
Definition truthy (p : option Z) : bool :=
  match p with
  | Some n => bool_decide (n ≠ 0)
  | None => false
  end.

(** [open(p).read()] in the watcher: the text, or [None] when opening or
    reading raises. *)
Definition read_text (p : Path) (w : World) : option string :=
  match files w !! p with
  | Some (Text s) => Some s
  | _ => None
  end.

(** ** jobs.py *)

(** [submit_job(command, label)].  The INSERT opens a transaction that only
    [conn.commit()], after the UPDATE, makes durable: when [Popen] raises,
    the function is left through the exception and the row is lost with the
    connection, while the two artifact files it opened for writing stay.
    Returns the job id when the function returns one. *)
Definition submit_job (e : Env) (command : string) (label : option string)
    (w : World) : option Z * World :=
  let w0 := init w in
  let '(t, w1) := now_iso e w0 in
  let '(job_id, db1) := insert_job command label t (conn w1) in
  let output_file := out_path job_id in
  let error_file := err_path job_id in
  let w2 :=
    with_files (<[error_file := Text ""]> (<[output_file := Text ""]> (files w1))) w1 in
  match popen e command with
  | None => (None, w2)
  | Some p =>
      let pid := Z.pos p in
      let db2 :=
        update_job job_id
          (λ j, set_output_file (Some output_file) (set_pid (Some pid) j)) db1 in
      let w3 := with_jobs_db (Some db2) w2 in
      let wt := mkWatcher job_id pid output_file error_file in
      let w4 := with_files (<[watcher_path job_id := Script wt]> (files w3)) w3 in
      if popen_watcher e
      then (Some job_id, print (PrintSubmitted job_id pid) (spawn wt w4))
      else (None, w4)
  end.

(** The preview of the watcher: the last five lines of the output artifact,
    cut to 300 characters. *)
Definition preview_of (wt : Watcher) (w : World) : string :=
  match read_text (w_out_file wt) w with
  | Some s =>
      match readlines s with
      | [] => "(no output)"
      | lines => str_take 300 (String.concat "" (last_n 5 lines))
      end
  | None => "(could not read output)"
  end.

(** [err_text]: the stripped error artifact, empty when it cannot be read. *)
Definition err_text_of (wt : Watcher) (w : World) : string :=
  match read_text (w_err_file wt) w with
  | Some s => py_strip s
  | None => ""
  end.

(** [1 if err_text else 0]. *)
Definition exit_code_of (err_text : string) : Z :=
  if decide (err_text = "") then 0 else 1.

Definition status_word_of (err_text : string) : string :=
  if decide (err_text = "") then "finished" else "finished with warnings".

(** The finalize step of the watcher script: everything after the polling
    loop and the grace period. *)
Definition finalize (e : Env) (wt : Watcher) (w : World) : World :=
  let preview := preview_of wt w in
  let err_text := err_text_of wt w in
  let exit_code := exit_code_of err_text in
  let status_word := status_word_of err_text in
  let '(now, w1) := now_iso e w in
  let w2 :=
    exec (update_job (w_job_id wt)
            (λ j, set_exit_code (Some exit_code)
                    (set_finished_at (Some now) (set_status Done j)))) w1 in
  let w3 :=
    if decide (err_text = "") then w2
    else exec (update_job (w_job_id wt)
                 (set_error (Some (str_take 500 err_text)))) w2 in
  let msg :=
    "Job #" +:+ pretty (w_job_id wt) +:+ " " +:+ status_word +:+ "."
      +:+ String newline preview in
  exec (insert_notification (w_job_id wt) msg now) w3.

(** One scheduling of the watcher script: it sleeps on while [os.kill(PID, 0)]
    succeeds and finalizes at the first probe that raises. *)
Definition run_watcher (e : Env) (wt : Watcher) (w : World) : World :=
  let w1 := syscall (Kill0 (w_pid wt)) w in
  if kill0 e (w_pid wt) then w1 else finalize e wt w1.

(** [check_and_update_status(conn, job)]. *)
Definition check_and_update_status (e : Env) (job : Job) (w : World) : Job * World :=
  if decide (j_status job ≠ Running) then (job, w)
  else if negb (truthy (j_pid job)) then (job, w)
  else
    match j_pid job with
    | None => (job, w)
    | Some pid =>
        let w0 := syscall (Kill0 pid) w in
        if kill0 e pid then (job, w0)
        else
          let '(t, w1) := now_iso e w0 in
          (set_status Done job,
           exec (update_job (j_id job)
                   (λ j, set_finished_at (Some t) (set_status Done j))) w1)
    end.

(** [get_job_status(job_id)]. *)
Definition get_job_status (e : Env) (job_id : Z) (w : World) : World :=
  let w0 := init w in
  match select_job job_id (conn w0) with
  | None => print (PrintNotFound job_id) w0
  | Some row =>
      let '(job, w1) := check_and_update_status e row w0 in
      print (PrintJob job) w1
  end.

(** [get_job_result(job_id, tail)]; which of the artifact texts it goes on
    to print for the reconciled job is not followed further. *)
Definition get_job_result (e : Env) (job_id : Z) (tail : Z) (w : World) : World :=
  let w0 := init w in
  match select_job job_id (conn w0) with
  | None => print (PrintNotFound job_id) w0
  | Some row =>
      let '(job, w1) := check_and_update_status e row w0 in
      print (PrintResult job) w1
  end.

(** [list_jobs(limit)]. *)
Definition list_row (e : Env) (w : World) (row : Job) : World :=
  let '(job, w1) := check_and_update_status e row w in
  print (PrintJobLine job) w1.

Definition list_jobs (e : Env) (limit : Z) (w : World) : World :=
  let w0 := init w in
  match sql_limit limit (merge_sort id_desc (jobs (conn w0))) with
  | [] => print PrintNoJobs w0
  | rows => foldl (list_row e) w0 rows
  end.

(** [cancel_job(job_id)]. *)
Definition signal_group (e : Env) (job : Job) (w : World) : World :=
  match j_pid job with
  | Some pid =>
      if decide (pid = 0) then w
      else
        let w0 := syscall (Getpgid pid) w in
        match getpgid e pid with
        | Some pgid =>
            let w1 := syscall (Killpg pgid SIGTERM) w0 in
            if killpg e pgid
            then print (PrintSentSigterm (j_id job) pid) w1
            else print (PrintProcessGone (j_id job)) w1
        | None => print (PrintProcessGone (j_id job)) w0
        end
  | None => w
  end.

Definition cancel_job (e : Env) (job_id : Z) (w : World) : World :=
  let w0 := init w in
  match select_job job_id (conn w0) with
  | None => print (PrintNotFound job_id) w0
  | Some job =>
      if decide (j_status job ≠ Running)
      then print (PrintAlready job_id (j_status job)) w0
      else
        let w1 := signal_group e job w0 in
        let '(t, w2) := now_iso e w1 in
        print (PrintCancelled job_id)
          (exec (update_job job_id
                   (λ j, set_finished_at (Some t) (set_status Cancelled j))) w2)
  end.

(** [get_notifications()]. *)
Definition pending (db : Database) : list Notification :=
  merge_sort created_asc (filter (λ n, n_delivered n = 0) (notifications db)).

Definition deliver (w : World) (row : Notification) : World :=
  exec (mark_delivered (n_id row)) (print (PrintMessage (n_message row)) w).

Definition get_notifications (w : World) : World :=
  let w0 := init w in
  match pending (conn w0) with
  | [] => print PrintNoPending w0
  | rows => foldl deliver w0 rows
  end.

(** [clean_jobs(keep)]. *)
Definition to_clean (keep : Z) (db : Database) : list Job :=
  sql_offset keep
    (merge_sort id_desc (filter (λ j, is_terminal (j_status j)) (jobs db))).

Definition clean_row (w : World) (row : Job) : World :=
  let w1 :=
    match j_output_file row with
    | Some f =>
        with_files
          (delete (watcher_path (j_id row))
             (delete (with_suffix f dot_err)
                (delete (with_suffix f dot_out) (files w)))) w
    | None => w
    end in
  exec (delete_job (j_id row)) (exec (delete_notifications (j_id row)) w1).

Definition clean_jobs (keep : Z) (w : World) : World :=
  let w0 := init w in
  match to_clean keep (conn w0) with
  | [] => print PrintNothingToClean w0
  | rows => print (PrintCleaned (length rows)) (foldl clean_row w0 rows)
  end.

(** ** guard.py *)

(** The loaded [safety.json], defaults merged in by [load_config()]. *)
Record Config : Type := mkConfig {
  allowed_paths : list string;
  blocked_patterns : list string;
  blocked_commands : list string;
  max_job_duration_seconds : Z;
  max_concurrent_jobs : Z;
  log_all_commands : bool
}.

(** [log_audit(action, target, command, result, reason)]. *)
Definition log_audit (e : Env) (action : string) (target command : option string)
    (result : string) (reason : option string) (w : World) : World :=
  let '(t, w1) := now_iso e w in
  append_audit (mkAuditEntry t action target command result reason) w1.

Section guard.

(** The command and path checks work on regular expressions and on the
    resolved file system; [guard_job] only consumes their verdicts. *)
Variable is_command_safe : string → Config → bool * string.
Variable is_path_allowed : string → Config → bool * string.
(** [re.findall(r'(?:^|\s)([/~][^\s;|&]+)', command)]. *)
Variable path_patterns : string → list string.

(** The loop over [path_patterns]: the first path that is not allowed,
    with the reason [is_path_allowed] gave. *)
Fixpoint first_disallowed (cfg : Config) (ps : list string) : option (string * string) :=
  match ps with
  | [] => None
  | p :: ps' =>
      if decide (p = "/" ∨ p = "~") then first_disallowed cfg ps'
      else
        let '(allowed, path_reason) := is_path_allowed p cfg in
        if allowed then first_disallowed cfg ps' else Some (p, path_reason)
  end.

Definition quota_reason (running limit : Z) : string :=
  "Too many concurrent jobs (" +:+ pretty running +:+ "/" +:+ pretty limit +:+ ")".

(** [guard_job(command)]: the verdict, its reason, and the audit entry. *)
Definition guard_job (e : Env) (cfg : Config) (command : string) (w : World)
    : (bool * string) * World :=
  let '(safe, reason) := is_command_safe command cfg in
  if negb safe
  then ((false, reason),
        log_audit e "job_submit" None (Some command) "blocked" (Some reason) w)
  else
    match first_disallowed cfg (path_patterns command) with
    | Some (p, path_reason) =>
        ((false, "Command references disallowed path: " +:+ p),
         log_audit e "job_submit" None (Some command) "blocked" (Some path_reason) w)
    | None =>
        let approved :=
          ((true, "Command approved"),
           log_audit e "job_submit" None (Some command) "allowed" None w) in
        match jobs_db w with
        | Some db =>
            let running := running_count db in
            if decide (max_concurrent_jobs cfg ≤ running)
            then
              let reason := quota_reason running (max_concurrent_jobs cfg) in
              ((false, reason),
               log_audit e "job_submit" None (Some command) "blocked" (Some reason) w)
            else approved
        | None => approved
        end
    end.

End guard.

(** ** The supervisor as a transition system *)

(** What can happen to the world: the commands of [jobs.py], a scheduling of
    a spawned watcher, and a launched command writing to one of the artifacts
    (the new text is arbitrary, which covers appending). *)
Inductive Op : Type :=
| Submit (command : string) (label : option string)
| Watch (wt : Watcher)
| StatusOf (job_id : Z)
| ResultOf (job_id : Z) (tail : Z)
| ListJobs (limit : Z)
| Cancel (job_id : Z)
| Notify
| Clean (keep : Z)
| Emit (p : Path) (s : string).

#[global] Instance Op_eq_dec : EqDecision Op.
Proof. solve_decision. Defined.

Definition emit (p : Path) (s : string) (w : World) : World :=
  match files w !! p with
  | Some (Text _) => with_files (<[p := Text s]> (files w)) w
  | _ => w
  end.

Definition run (e : Env) (o : Op) (w : World) : World :=
  match o with
  | Submit command label => (submit_job e command label w).2
  | Watch wt => if decide (wt ∈ watchers w) then run_watcher e wt w else w
  | StatusOf job_id => get_job_status e job_id w
  | ResultOf job_id tail => get_job_result e job_id tail w
  | ListJobs limit => list_jobs e limit w
  | Cancel job_id => cancel_job e job_id w
  | Notify => get_notifications w
  | Clean keep => clean_jobs keep w
  | Emit p s => emit p s w
  end.

(** A schedule: each operation with the environment it meets. *)
Definition run_all (sched : list (Env * Op)) (w : World) : World :=
  foldl (λ w eo, run eo.1 eo.2 w) w sched.

(** ** Notions the properties are stated with *)

(** The assignments of every UPDATE leave the primary key alone. *)
Definition keeps_id (f : Job → Job) : Prop := ∀ j, j_id (f j) = j_id j.

(** ** Well-formed worlds

    What the schema and the way rows are written guarantee: [id] is a
    primary key handed out by AUTOINCREMENT, a recorded pid is the pid of a
    process, a row that is still ['running'] has none of the fields that
    only finishing a job fills in, and a watcher was spawned with the pid
    that its job's row records. *)

Definition wf_row (j : Job) : Prop :=
  match j_pid j with Some p => 0 < p | None => True end ∧
  (j_status j = Running →
   j_finished_at j = None ∧ j_exit_code j = None ∧ j_error j = None).

Definition wf_watcher (db : Database) (wt : Watcher) : Prop :=
  w_job_id wt ≤ jobs_seq db ∧
  Forall (λ j, j_id j = w_job_id wt → j_pid j = Some (w_pid wt)) (jobs db).

Definition wf_world (w : World) : Prop :=
  NoDup (j_id <$> jobs (conn w)) ∧
  Forall (λ j, j_id j ≤ jobs_seq (conn w)) (jobs (conn w)) ∧
  Forall wf_row (jobs (conn w)) ∧
  Forall (wf_watcher (conn w)) (watchers w).

#[global] Instance wf_row_dec j : Decision (wf_row j).
Proof. unfold wf_row. destruct (j_pid j); apply _. Defined.
#[global] Instance wf_watcher_dec db wt : Decision (wf_watcher db wt).
Proof. unfold wf_watcher. apply _. Defined.
#[global] Instance wf_world_dec w : Decision (wf_world w).
Proof. unfold wf_world. apply _. Defined.

(** Every row that [submit_job] commits names its output artifact. *)
Definition artifacts_recorded (w : World) : Prop :=
  Forall (λ j, j_output_file j = Some (out_path (j_id j))) (jobs (conn w)).

#[global] Instance artifacts_recorded_dec w : Decision (artifacts_recorded w).
Proof. unfold artifacts_recorded. apply _. Defined.

(** The rows [check_and_update_status] corrects. *)
Definition stale (e : Env) (job : Job) : bool :=
  bool_decide (j_status job = Running) &&
  match j_pid job with
  | Some p => bool_decide (p ≠ 0) && negb (kill0 e p)
  | None => false
  end.

Definition mark_done (t : Timestamp) (j : Job) : Job :=
  set_finished_at (Some t) (set_status Done j).

(** What a read shows for a row: the reconciled copy. *)
Definition view (e : Env) (row : Job) : Job :=
  if stale e row then set_status Done row else row.

(** What a command printed: the part of [stdout] it added. *)
Definition printed_by (w w' : World) : list Output :=
  drop (length (stdout w)) (stdout w').

(** The rows a listing reads. *)
Definition listed (limit : Z) (w : World) : list Job :=
  sql_limit limit (merge_sort id_desc (jobs (conn w))).

(** The reads of a job, and what each prints for it. *)
Definition is_read (o : Op) : Prop :=
  match o with
  | StatusOf _ | ResultOf _ _ | ListJobs _ => True
  | _ => False
  end.

Definition reads (o : Op) (job_id : Z) (w : World) : Prop :=
  match o with
  | StatusOf i | ResultOf i _ => i = job_id
  | ListJobs limit => job_id ∈ j_id <$> listed limit w
  | _ => False
  end.

#[global] Instance reads_dec o i w : Decision (reads o i w).
Proof. destruct o; simpl; apply _. Defined.

Definition shown (o : Op) (job : Job) : Output :=
  match o with
  | StatusOf _ => PrintJob job
  | ResultOf _ _ => PrintResult job
  | _ => PrintJobLine job
  end.

(** The row that a successful launch leaves behind. *)
Definition launched_row (e : Env) (command : string) (label : option string)
    (p : positive) (w : World) : Job :=
  let i := next_rowid (jobs_seq (conn w)) (j_id <$> jobs (conn w)) in
  mkJob i command label Running (Some (Z.pos p)) (clock e (ticks w))
        None None (Some (out_path i)) None.

(** What the finalize step makes of the row of its job, and the message
    it posts. *)
Definition finalized (err_text : string) (t : Timestamp) (j : Job) : Job :=
  let j1 :=
    set_exit_code (Some (exit_code_of err_text))
      (set_finished_at (Some t) (set_status Done j)) in
  if decide (err_text = "") then j1
  else set_error (Some (str_take 500 err_text)) j1.

Definition message_of (wt : Watcher) (w : World) : string :=
  "Job #" +:+ pretty (w_job_id wt) +:+ " " +:+ status_word_of (err_text_of wt w)
    +:+ "." +:+ String newline (preview_of wt w).

(** The files [clean_jobs] unlinks for a row: both artifacts named after
    its recorded output file and the watcher script of its id, when an
    output file is recorded at all. *)
Definition doomed (row : Job) : list Path :=
  match j_output_file row with
  | Some f => [with_suffix f dot_out; with_suffix f dot_err; watcher_path (j_id row)]
  | None => []
  end.

(** The three files the supervisor keeps for a job. *)
Definition job_files (job_id : Z) : list Path :=
  [out_path job_id; err_path job_id; watcher_path job_id].

(** ** Sample environments and worlds *)

(** Every process is there, group lookups and signals succeed, the launched
    command gets pid 4242. *)
Definition env_live : Env :=
  mkEnv (λ n, 1000 + Z.of_nat n) (λ _, true) (λ p, Some p) (λ _, true)
        (λ _, Some 4242%positive) true.

(** Every probed process is gone. *)
Definition env_gone : Env :=
  mkEnv (λ n, 2000 + Z.of_nat n) (λ _, false) (λ _, None) (λ _, false)
        (λ _, Some 4343%positive) true.

(** A job left ['running'] without a pid. *)
Definition stuck_job : Job :=
  mkJob 1 "sleep 60" None Running None 100 None None None None.

Definition world_stuck : World :=
  mkWorld (Some (mkDatabase [stuck_job] 1 [] 0)) ∅ [] [] [] [] 1%nat.

(** The notifications table after the rows with the given ids were marked
    delivered. *)
Definition marked (ids : list Z) (l : list Notification) : list Notification :=
  (λ n, if decide (n_id n ∈ ids) then set_delivered 1 n else n) <$> l.

(** The world after one successful [submit], and the watcher it spawned. *)
Definition world_launched : World :=
  run env_live (Submit "sleep 60" None) initial_world.

Definition first_watcher : Watcher := mkWatcher 1 4242 (out_path 1) (err_path 1).

(** Five jobs running, which is the default limit. *)
Definition running_job (i : Z) : Job :=
  mkJob i "sleep 60" None Running (Some (4000 + i)) 100 None None
        (Some (out_path i)) None.


Definition sample_config : Config := mkConfig ["~/Dev"] [] [] 3600 5 true.

(** The row that [world_launched] holds. *)
Definition launched_job : Job :=
  mkJob 1 "sleep 60" None Running (Some 4242) 1000 None None
        (Some (out_path 1)) None.

(** A history of six jobs: five terminal ones and job 4 still running, with
    their artifacts, watcher scripts and notifications. *)
Definition finished_job (i : Z) (s : Status) : Job :=
  mkJob i "make test" None s (Some (4000 + i)) 100 (Some 200) (Some 0)
        (Some (out_path i)) None.

Definition artifacts_of (i : Z) : list (Path * FileData) :=
  [(out_path i, Text "ok"); (err_path i, Text "");
   (watcher_path i, Script (mkWatcher i (4000 + i) (out_path i) (err_path i)))].

Definition world_history : World :=
  mkWorld
    (Some (mkDatabase
             [finished_job 1 Done; finished_job 2 Cancelled; finished_job 3 Done;
              running_job 4; finished_job 5 Done; finished_job 6 Failed]
             6
             [mkNotification 1 1 "Job #1 finished." 200 1;
              mkNotification 2 3 "Job #3 finished." 210 0;
              mkNotification 3 5 "Job #5 finished." 205 0]
             3))
    (list_to_map ([1; 2; 3; 4; 5; 6] ≫= artifacts_of))
    [mkWatcher 4 4004 (out_path 4) (err_path 4)] [] [] [] 6%nat.



(** ** More sample environments *)

(** [Popen] fails for every command. *)
Definition env_no_launch : Env :=
  mkEnv (λ n, 3000 + Z.of_nat n) (λ _, true) (λ p, Some p) (λ _, true)
        (λ _, None) true.

(** ** Text *)

(** A text of white space only: what [s.strip()] turns into the empty
    string. *)
Fixpoint blank (s : string) : bool :=
  match s with
  | EmptyString => true
  | String c s' => py_isspace c && blank s'
  end.

(** ['\n'.join(lines)]. *)
Definition join_nl (lines : list string) : string :=
  String.concat (String newline "") lines.

(** The text [get_job_result] prints for an output and a [--tail]:
    [if tail > 0: lines = output.split('\n'); output = '\n'.join(lines[-tail:])]. *)
Definition tail_output (tail : Z) (output : string) : string :=
  if decide (0 < tail) then join_nl (last_n (Z.to_nat tail) (split_nl output))
  else output.

(** [s[:n] + ("..." if len(s) > n else "")]: the command column of
    [list_jobs] and the target column of [show_audit], both with [n = 60]. *)
Definition shorten (n : nat) (s : string) : string :=
  str_take n s +:+ (if decide (n < String.length s)%nat then "..." else "").

(** No character of the text is a line feed. *)
Fixpoint one_line (s : string) : bool :=
  match s with
  | EmptyString => true
  | String c s' => bool_decide (c ≠ newline) && one_line s'
  end.

Definition three_lines : string :=
  "one" +:+ String newline ("two" +:+ String newline "three").

(** ** What [get_job_result] prints *)

                                              (* the header with the status, and [output] between two rules *)

Section result.

(** The text of a generated watcher script, and
    [output_file.replace('.out', '.err')] on artifact names. *)
Variable script_text : Watcher → string.
Variable replace_out : Path → Path.



End result.

(** ** guard.py: the command check *)

(** [str.lower] on the code points below 256: the letters A to Z, and the
    capital letters from 192 to 222 but for the multiplication sign. *)
Definition py_lower_char (c : ascii) : ascii :=
  let n := N_of_ascii c in
  if ((65 <=? n) && (n <=? 90) || (192 <=? n) && (n <=? 222) && negb (n =? 215))%N
  then ascii_of_N (n + 32)
  else c.

Fixpoint py_lower (s : string) : string :=
  match s with
  | EmptyString => EmptyString
  | String c s' => String (py_lower_char c) (py_lower s')
  end.

(** [sub in s] on texts. *)
Fixpoint contains (sub s : string) : bool :=
  String.prefix sub s ||
  match s with
  | EmptyString => false
  | String _ s' => contains sub s'
  end.

Section command_check.

(** [re.search(pattern, command, re.IGNORECASE)]: whether there is a match,
    or [None] when the pattern does not compile ([re.error]). *)
Variable re_search : string → string → option bool.

(** The loop over [blocked_commands]: the first entry that occurs in the
    lowered, stripped command. *)
Fixpoint blocked_command (cmd_lower : string) (l : list string) : option string :=
  match l with
  | [] => None
  | blocked :: l' =>
      if contains (py_lower blocked) cmd_lower then Some blocked
      else blocked_command cmd_lower l'
  end.

(** The loop over [blocked_patterns]: the first pattern that matches the
    command as given; a pattern that does not compile is skipped. *)
Fixpoint blocked_pattern (command : string) (l : list string) : option string :=
  match l with
  | [] => None
  | pattern :: l' =>
      match re_search pattern command with
      | Some true => Some pattern
      | _ => blocked_pattern command l'
      end
  end.

(** [is_command_safe(command, config)]. *)
Definition is_command_safe (command : string) (cfg : Config) : bool * string :=
  let cmd_lower := py_strip (py_lower command) in
  match blocked_command cmd_lower (blocked_commands cfg) with
  | Some blocked => (false, "Blocked command: contains '" +:+ blocked +:+ "'")
  | None =>
      match blocked_pattern command (blocked_patterns cfg) with
      | Some pattern => (false, "Blocked pattern: " +:+ pattern)
      | None => (true, "Command appears safe")
      end
  end.

End command_check.

(** The text has a first and a last character, and neither is white space. *)
Definition bare (s : string) : bool :=
  match s with
  | String c _ => negb (py_isspace c)
  | EmptyString => false
  end &&
  match String.rev s with
  | String c _ => negb (py_isspace c)
  | EmptyString => false
  end.

(** [config['blocked_patterns'].append(pattern)]. *)
Definition with_blocked_pattern (pattern : string) (cfg : Config) : Config :=
  mkConfig (allowed_paths cfg) (blocked_patterns cfg ++ [pattern])
    (blocked_commands cfg) (max_job_duration_seconds cfg)
    (max_concurrent_jobs cfg) (log_all_commands cfg).

(** The command words of [DEFAULT_CONFIG]. *)
Definition default_blocked_commands : list string :=
  ["rm -rf /"; "rm -rf ~"; "rm -rf ."; "rm -rf .."; "format"; "mkfs"].

(** A pattern engine for the examples: it knows literal patterns only,
    finds them in any letter case, and does not compile "(". *)
Definition literal_search (pattern command : string) : option bool :=
  if decide (pattern = "(") then None
  else Some (contains (py_lower pattern) (py_lower command)).

Definition guarded_config : Config :=
  mkConfig ["~/Dev"] ["("; "sudo "] default_blocked_commands 3600 5 true.

(** ** guard.py: the path check *)

Section path_check.

(** [normalize_path(p).parts], the components of the expanded and resolved
    path; [str(path)] of such a path; and [f"{paths}"] of a list of texts. *)
Variable normalize_path : string → list string.
Variable path_str : list string → string.
Variable list_str : list string → string.

(** The loop over the normalized [allowed_paths]: the first directory for
    which [target.relative_to(allowed)] does not raise, which is when the
    components of [allowed] are the first components of [target]. *)
Fixpoint allowing (target : list string) (allowed_paths : list (list string))
    : option (list string) :=
  match allowed_paths with
  | [] => None
  | allowed :: l' =>
      if decide (allowed `prefix_of` target) then Some allowed
      else allowing target l'
  end.

(** [is_path_allowed(path, config)]. *)
Definition is_path_allowed (path : string) (cfg : Config) : bool * string :=
  let target := normalize_path path in
  match allowing target (normalize_path <$> allowed_paths cfg) with
  | Some allowed => (true, "Path is under " +:+ path_str allowed)
  | None =>
      (false,
       "Path " +:+ path_str target +:+ " is not under any allowed directory: "
         +:+ list_str (allowed_paths cfg))
  end.


End path_check.


(** ** guard.py: editing the allowlist *)

(** What the editing subcommands print. *)
Inductive GuardOutput : Type :=
| SayAdded (p : string)              (* "Added {p} to allowed paths" *)
| SayAlreadyAllowed (p : string)     (* "Path {p} is already allowed" *)
| SayRemoved (p : string)            (* "Removed {p} from allowed paths" *)
| SayNotInAllowlist (p : string)     (* "Path {p} is not in the allowlist" *)
| SayBlockedPattern (pattern : string).  (* "Added blocked pattern: {pattern}" *)

Definition with_allowed_paths (l : list string) (cfg : Config) : Config :=
  mkConfig l (blocked_patterns cfg) (blocked_commands cfg)
    (max_job_duration_seconds cfg) (max_concurrent_jobs cfg) (log_all_commands cfg).

(** [l.remove(p)]: [l] without the first [p]. *)
Fixpoint remove_first (p : string) (l : list string) : list string :=
  match l with
  | [] => []
  | x :: l' => if decide (x = p) then l' else x :: remove_first p l'
  end.

(** The subcommands [allow-path], [remove-path] and [block-pattern] of
    [main()], from the loaded [cfg] on: the configuration that the next
    [load_config()] returns, what is printed, and the audit trail. *)
Definition allow_path (e : Env) (p : string) (cfg : Config) (w : World)
    : Config * GuardOutput * World :=
  if decide (p ∈ allowed_paths cfg) then (cfg, SayAlreadyAllowed p, w)
  else
    (with_allowed_paths (allowed_paths cfg ++ [p]) cfg, SayAdded p,
     log_audit e "config_change" (Some ("allow-path " +:+ p)) None "allowed" None w).

Definition remove_path (e : Env) (p : string) (cfg : Config) (w : World)
    : Config * GuardOutput * World :=
  if decide (p ∈ allowed_paths cfg)
  then
    (with_allowed_paths (remove_first p (allowed_paths cfg)) cfg, SayRemoved p,
     log_audit e "config_change" (Some ("remove-path " +:+ p)) None "allowed" None w)
  else (cfg, SayNotInAllowlist p, w).

Definition block_pattern (e : Env) (pattern : string) (cfg : Config) (w : World)
    : Config * GuardOutput * World :=
  (with_blocked_pattern pattern cfg, SayBlockedPattern pattern,
   log_audit e "config_change" (Some ("block-pattern " +:+ pattern)) None "allowed"
     None w).

(** Components for the examples: a path is cut at its slashes, and "~"
    stands for the home directory [/home/u]. *)
Definition slash : ascii := "/"%char.

Fixpoint split_slash (s : string) : list string :=
  match s with
  | EmptyString => [EmptyString]
  | String c s' =>
      if decide (c = slash) then EmptyString :: split_slash s'
      else match split_slash s' with
           | x :: r => String c x :: r
           | [] => [String c EmptyString]
           end
  end.

Definition sample_normalize (p : string) : list string :=
  match filter (λ x, x ≠ "") (split_slash p) with
  | "~" :: r => "/" :: "home" :: "u" :: r
  | r => "/" :: r
  end.

(** ** guard.py: the configuration file *)

(** What [json.load] returns, with whole numbers for the numbers. *)
#[local] Unset Elimination Schemes.
Inductive Json : Type :=
| JNull
| JBool (b : bool)
| JNum (n : Z)
| JStr (s : string)
| JList (l : list Json)
| JObject (l : list (string * Json)).
#[local] Set Elimination Schemes.

(** [DEFAULT_CONFIG], entry by entry. *)
Definition default_blocked_patterns : list string :=
  [ "rm\s+(-rf?|--recursive)\s+[/~]";
    "rm\s+-rf?\s+\.";
    ">\s*/etc/";
    "curl\s+.*\|\s*(sh|bash|python)";
    "wget\s+.*\|\s*(sh|bash|python)";
    "chmod\s+777";
    "sudo\s+";
    "mkfs\.";
    "dd\s+if=";
    ":()\{.*\}";
    "eval\s+";
    "\bexec\s+";
    "os\.system\s*\(";
    "subprocess\.call.*shell\s*=\s*True";
    "__import__\s*\(";
    "shutil\.rmtree\s*\(\s*['" +:+ String "092"%char (String "034"%char "/~]") ].

Definition DEFAULT_CONFIG : list (string * Json) :=
  [ ("version", JNum 1);
    ("allowed_paths", JList [JStr "~/Dev"]);
    ("blocked_patterns", JList (JStr <$> default_blocked_patterns));
    ("blocked_commands", JList (JStr <$> default_blocked_commands));
    ("max_job_duration_seconds", JNum 3600);
    ("max_concurrent_jobs", JNum 5);
    ("log_all_commands", JBool true) ].

(** One round of [for k, v in DEFAULT_CONFIG.items(): if k not in cfg: cfg[k] = v]. *)
Definition merge_default (cfg : gmap string Json) (kv : string * Json)
    : gmap string Json :=
  match cfg !! kv.1 with
  | None => <[kv.1 := kv.2]> cfg
  | Some _ => cfg
  end.

(** [load_config()] on [safety.json], which is missing or holds a JSON
    object: the configuration returned, and the file afterwards (the
    defaults are saved when there was no file). *)
Definition load_config (file : option (gmap string Json))
    : gmap string Json * option (gmap string Json) :=
  match file with
  | Some cfg => (foldl merge_default cfg DEFAULT_CONFIG, file)
  | None => (list_to_map DEFAULT_CONFIG, Some (list_to_map DEFAULT_CONFIG))
  end.
(** * Properties *)

(** ** What each step leaves of the database connection *)

Lemma conn_init w : conn (init w) = conn w.
Proof. reflexivity. Qed.

Lemma conn_exec f w : conn (exec f w) = f (conn w).
Proof. reflexivity. Qed.

Lemma conn_print o w : conn (print o w) = conn w.
Proof. reflexivity. Qed.

Lemma conn_syscall c w : conn (syscall c w) = conn w.
Proof. reflexivity. Qed.

Lemma conn_with_files f w : conn (with_files f w) = conn w.
Proof. reflexivity. Qed.

Lemma conn_spawn wt w : conn (spawn wt w) = conn w.
Proof. reflexivity. Qed.

Lemma conn_now_iso e w : conn (now_iso e w).2 = conn w.
Proof. reflexivity. Qed.

Lemma conn_with_jobs_db db w : conn (with_jobs_db (Some db) w) = db.
Proof. reflexivity. Qed.

(** ** Rows and the statements on them *)

Lemma where_id_keeps_id i f : keeps_id f → keeps_id (where_id i f).
Proof. intros Hf j. unfold where_id. case_decide; [apply Hf | done]. Qed.

Lemma where_id_eq i f j : j_id j = i → where_id i f j = f j.
Proof. intros. unfold where_id. by case_decide. Qed.

Lemma where_id_ne i f j : j_id j ≠ i → where_id i f j = j.
Proof. intros. unfold where_id. by case_decide. Qed.

Lemma jobs_update_job i f db : jobs (update_job i f db) = where_id i f <$> jobs db.
Proof. reflexivity. Qed.

Lemma ids_update_job i f db :
  keeps_id f → j_id <$> jobs (update_job i f db) = j_id <$> jobs db.
Proof.
  intros Hf. rewrite jobs_update_job, <- list_fmap_compose.
  apply list_fmap_ext. intros k j _. simpl. by apply where_id_keeps_id.
Qed.

Lemma elem_of_update_job i f db j' :
  j' ∈ jobs (update_job i f db) ↔ ∃ j, j' = where_id i f j ∧ j ∈ jobs db.
Proof. rewrite jobs_update_job. apply list_elem_of_fmap. Qed.

Lemma select_job_Some i db j :
  select_job i db = Some j → j ∈ jobs db ∧ j_id j = i.
Proof.
  unfold select_job. intros H%head_Some_elem_of.
  apply list_elem_of_filter in H. tauto.
Qed.

Lemma select_job_None i db :
  select_job i db = None ↔ ∀ j, j ∈ jobs db → j_id j ≠ i.
Proof.
  unfold select_job. rewrite head_None. split.
  - intros H j Hj Hi.
    assert (j ∈ filter (λ j, j_id j = i) (jobs db)) as Hin
      by (by apply list_elem_of_filter).
    rewrite H in Hin. by apply elem_of_nil in Hin.
  - intros H. induction (jobs db) as [|x l IH]; [done|].
    rewrite filter_cons. case_decide as Hx.
    + exfalso. apply (H x); [left | done].
    + apply IH. intros j Hj. apply H. by right.
Qed.

Lemma select_job_unique db j :
  NoDup (j_id <$> jobs db) → j ∈ jobs db → select_job (j_id j) db = Some j.
Proof.
  unfold select_job. induction (jobs db) as [|x l IH]; intros Hnd Hj.
  - by apply elem_of_nil in Hj.
  - rewrite fmap_cons in Hnd. apply NoDup_cons in Hnd as [Hx Hnd].
    rewrite filter_cons. apply elem_of_cons in Hj as [->|Hj].
    + by case_decide.
    + case_decide as Hxj; [|by apply IH].
      exfalso. apply Hx. rewrite Hxj. by apply list_elem_of_fmap_2.
Qed.

Lemma select_job_update k i f db :
  keeps_id f →
  select_job k (update_job i f db) = where_id i f <$> select_job k db.
Proof.
  intros Hf. unfold select_job. rewrite jobs_update_job.
  induction (jobs db) as [|x l IH]; [done|].
  rewrite fmap_cons, !filter_cons, (where_id_keeps_id i f Hf x).
  case_decide; [done | apply IH].
Qed.

Lemma select_job_update_ne k i f db :
  keeps_id f → k ≠ i → select_job k (update_job i f db) = select_job k db.
Proof.
  intros Hf Hki. rewrite select_job_update by done.
  destruct (select_job k db) as [j|] eqn:Hj; [|done].
  apply select_job_Some in Hj as [_ Hj]. simpl.
  rewrite where_id_ne; [done | congruence].
Qed.

Lemma keeps_id_set_status s : keeps_id (set_status s).
Proof. by intros []. Qed.
Lemma keeps_id_set_finished_at t : keeps_id (set_finished_at t).
Proof. by intros []. Qed.
Lemma keeps_id_set_exit_code c : keeps_id (set_exit_code c).
Proof. by intros []. Qed.
Lemma keeps_id_set_error s : keeps_id (set_error s).
Proof. by intros []. Qed.
Lemma keeps_id_set_pid p : keeps_id (set_pid p).
Proof. by intros []. Qed.
Lemma keeps_id_set_output_file f : keeps_id (set_output_file f).
Proof. by intros []. Qed.
Lemma keeps_id_compose f g : keeps_id f → keeps_id g → keeps_id (λ j, f (g j)).
Proof. intros Hf Hg j. by rewrite Hf, Hg. Qed.

Create HintDb rows discriminated.
#[global] Hint Resolve keeps_id_set_status keeps_id_set_finished_at
  keeps_id_set_exit_code keeps_id_set_error keeps_id_set_pid
  keeps_id_set_output_file keeps_id_compose where_id_keeps_id : rows.

(** ** The reconciler *)

Lemma keeps_id_mark_done t : keeps_id (mark_done t).
Proof. by intros []. Qed.
#[global] Hint Resolve keeps_id_mark_done : rows.

Lemma reconcile_view e job w :
  (check_and_update_status e job w).1 =
  if stale e job then set_status Done job else job.
Proof.
  unfold check_and_update_status, stale.
  case_decide as Hs.
  - rewrite bool_decide_eq_false_2 by done. done.
  - rewrite (bool_decide_eq_true_2 _ Hs). simpl.
    destruct (j_pid job) as [p|]; simpl; [|done].
    destruct (bool_decide (p ≠ 0)); simpl; [|done].
    by destruct (kill0 e p).
Qed.

Lemma reconcile_conn e job w :
  conn (check_and_update_status e job w).2 =
  if stale e job
  then update_job (j_id job) (mark_done (clock e (ticks w))) (conn w)
  else conn w.
Proof.
  unfold check_and_update_status, stale.
  case_decide as Hs.
  - rewrite bool_decide_eq_false_2 by done. done.
  - rewrite (bool_decide_eq_true_2 _ Hs). simpl.
    destruct (j_pid job) as [p|]; simpl; [|done].
    destruct (bool_decide (p ≠ 0)); simpl; [|done].
    by destruct (kill0 e p).
Qed.

Lemma reconcile_frame e job w :
  let w' := (check_and_update_status e job w).2 in
  watchers w' = watchers w ∧ files w' = files w ∧ stdout w' = stdout w.
Proof.
  unfold check_and_update_status.
  case_decide; [done|].
  destruct (truthy (j_pid job)); simpl; [|done].
  destruct (j_pid job) as [p|]; [|done].
  by destruct (kill0 e p).
Qed.

(** No pid, no probe: the reconciler returns at once. *)
Lemma reconcile_pidless e job w :
  j_pid job = None → check_and_update_status e job w = (job, w).
Proof.
  intros Hp. unfold check_and_update_status. rewrite Hp. simpl.
  by case_decide.
Qed.

Lemma reconcile_terminal e job w :
  j_status job ≠ Running → check_and_update_status e job w = (job, w).
Proof. intros Hs. unfold check_and_update_status. by case_decide. Qed.

Lemma stale_spec e job :
  stale e job = true ↔
  j_status job = Running ∧ ∃ p, j_pid job = Some p ∧ p ≠ 0 ∧ kill0 e p = false.
Proof.
  unfold stale. rewrite andb_true_iff, bool_decide_eq_true.
  destruct (j_pid job) as [p|].
  - rewrite andb_true_iff, bool_decide_eq_true, negb_true_iff.
    split.
    + intros (? & ? & ?). eauto.
    + intros (? & q & [= <-] & ? & ?). done.
  - split; [intros [_ [=]] | intros (_ & q & [=] & _)].
Qed.

Lemma printed_by_app w w' outs :
  stdout w' = stdout w ++ outs → printed_by w w' = outs.
Proof. unfold printed_by. intros ->. by rewrite drop_app_length. Qed.

Ltac reconcile e row w :=
  let job := fresh "job" in
  let w1 := fresh "w" in
  let Hc := fresh "Hc" in
  pose proof (reconcile_view e row w) as ?Hview;
  pose proof (reconcile_conn e row w) as ?Hconn;
  pose proof (reconcile_frame e row w) as (?Hwatchers & ?Hfiles & ?Hstdout);
  destruct (check_and_update_status e row w) as [job w1] eqn:Hc;
  simpl in *; subst job.

Lemma list_row_conn e w row :
  conn (list_row e w row) =
  if stale e row
  then update_job (j_id row) (mark_done (clock e (ticks w))) (conn w)
  else conn w.
Proof. unfold list_row. reconcile e row w. by rewrite conn_print. Qed.

Lemma list_row_stdout e w row :
  stdout (list_row e w row) = stdout w ++ [PrintJobLine (view e row)].
Proof. unfold list_row, view. reconcile e row w. simpl. by rewrite Hstdout. Qed.

Lemma list_row_watchers e w row : watchers (list_row e w row) = watchers w.
Proof. unfold list_row. by reconcile e row w. Qed.

Lemma list_row_files e w row : files (list_row e w row) = files w.
Proof. unfold list_row. by reconcile e row w. Qed.

Lemma list_rows_stdout e rows w :
  stdout (foldl (list_row e) w rows) =
  stdout w ++ ((λ row, PrintJobLine (view e row)) <$> rows).
Proof.
  revert w. induction rows as [|row rows IH]; intros w; simpl.
  - by rewrite app_nil_r.
  - by rewrite IH, list_row_stdout, <- app_assoc.
Qed.

Lemma list_rows_select_other e rows w k :
  (∀ row, row ∈ rows → stale e row = true → j_id row ≠ k) →
  select_job k (conn (foldl (list_row e) w rows)) = select_job k (conn w).
Proof.
  revert w. induction rows as [|row rows IH]; intros w Hk; simpl; [done|].
  rewrite IH by (intros r Hr; apply Hk; by right).
  rewrite list_row_conn. destruct (stale e row) eqn:Hst; [|done].
  apply select_job_update_ne; [auto with rows|].
  intros ->. by eapply Hk; [left|..].
Qed.

Lemma list_rows_select_stale e rows w row :
  NoDup (j_id <$> rows) → row ∈ rows → stale e row = true →
  ∃ t, select_job (j_id row) (conn (foldl (list_row e) w rows)) =
       mark_done t <$> select_job (j_id row) (conn w).
Proof.
  revert w. induction rows as [|r rows IH]; intros w Hnd Hin Hst.
  - by apply elem_of_nil in Hin.
  - rewrite fmap_cons in Hnd. apply NoDup_cons in Hnd as [Hr Hnd].
    simpl. apply elem_of_cons in Hin as [->|Hin].
    + exists (clock e (ticks w)).
      rewrite list_rows_select_other.
      * rewrite list_row_conn, Hst, select_job_update by auto with rows.
        destruct (select_job (j_id r) (conn w)) as [j|] eqn:Hj; [|done].
        apply select_job_Some in Hj as [_ Hj]. simpl.
        by rewrite where_id_eq.
      * intros r' Hr' _ Heq. apply Hr. rewrite <- Heq.
        by apply list_elem_of_fmap_2.
    + destruct (IH (list_row e w r) Hnd Hin Hst) as [t Ht].
      exists t. rewrite Ht, list_row_conn.
      destruct (stale e r); [|done].
      rewrite select_job_update_ne; [done | auto with rows |].
      intros Heq. apply Hr. rewrite <- Heq. by apply list_elem_of_fmap_2.
Qed.

(** The rows [list_jobs] reads are rows of the table, each once. *)
Lemma listed_rows limit db :
  NoDup (j_id <$> jobs db) →
  NoDup (j_id <$> sql_limit limit (merge_sort id_desc (jobs db))) ∧
  ∀ row, row ∈ sql_limit limit (merge_sort id_desc (jobs db)) → row ∈ jobs db.
Proof.
  intros Hnd.
  assert (sql_limit limit (merge_sort id_desc (jobs db))
            `sublist_of` merge_sort id_desc (jobs db)) as Hsub.
  { unfold sql_limit. case_decide; [done | apply sublist_take]. }
  split.
  - apply (sublist_NoDup _ (j_id <$> merge_sort id_desc (jobs db)));
      [|by apply fmap_sublist].
    by rewrite (merge_sort_Permutation id_desc (jobs db)).
  - intros row Hrow.
    rewrite <- (merge_sort_Permutation id_desc (jobs db)).
    by eapply elem_of_sublist.
Qed.

Lemma get_job_status_found e i w row :
  select_job i (conn w) = Some row →
  conn (get_job_status e i w) =
    (if stale e row
     then update_job (j_id row) (mark_done (clock e (ticks w))) (conn w)
     else conn w) ∧
  stdout (get_job_status e i w) = stdout w ++ [PrintJob (view e row)] ∧
  watchers (get_job_status e i w) = watchers w ∧
  files (get_job_status e i w) = files w.
Proof.
  intros Hrow. unfold get_job_status, view.
  change (conn (init w)) with (conn w). rewrite Hrow.
  reconcile e row (init w). by rewrite Hstdout.
Qed.

Lemma get_job_result_found e i tail w row :
  select_job i (conn w) = Some row →
  conn (get_job_result e i tail w) =
    (if stale e row
     then update_job (j_id row) (mark_done (clock e (ticks w))) (conn w)
     else conn w) ∧
  stdout (get_job_result e i tail w) = stdout w ++ [PrintResult (view e row)] ∧
  watchers (get_job_result e i tail w) = watchers w ∧
  files (get_job_result e i tail w) = files w.
Proof.
  intros Hrow. unfold get_job_result, view.
  change (conn (init w)) with (conn w). rewrite Hrow.
  reconcile e row (init w). by rewrite Hstdout.
Qed.

Lemma get_job_status_missing e i w :
  select_job i (conn w) = None →
  get_job_status e i w = print (PrintNotFound i) (init w).
Proof.
  intros Hrow. unfold get_job_status.
  change (conn (init w)) with (conn w). by rewrite Hrow.
Qed.

Lemma get_job_result_missing e i tail w :
  select_job i (conn w) = None →
  get_job_result e i tail w = print (PrintNotFound i) (init w).
Proof.
  intros Hrow. unfold get_job_result.
  change (conn (init w)) with (conn w). by rewrite Hrow.
Qed.

Lemma list_jobs_rows e limit w :
  listed limit w ≠ [] →
  list_jobs e limit w = foldl (list_row e) (init w) (listed limit w).
Proof.
  unfold list_jobs, listed. change (conn (init w)) with (conn w).
  by destruct (sql_limit limit (merge_sort id_desc (jobs (conn w)))).
Qed.

Lemma list_jobs_empty e limit w :
  listed limit w = [] → list_jobs e limit w = print PrintNoJobs (init w).
Proof.
  unfold list_jobs, listed. change (conn (init w)) with (conn w).
  by intros ->.
Qed.

(** The row that a listing reads under a given id is the row of the table. *)
Lemma listed_row limit w j :
  NoDup (j_id <$> jobs (conn w)) → j ∈ jobs (conn w) →
  j_id j ∈ j_id <$> listed limit w → j ∈ listed limit w.
Proof.
  intros Hnd Hj (row & Hid & Hrow)%list_elem_of_fmap.
  destruct (listed_rows limit (conn w) Hnd) as [_ Hin].
  pose proof (Hin row Hrow) as Hrow'.
  assert (Some row = Some j) as [= ->]; [|done].
  rewrite <- (select_job_unique (conn w) row Hnd Hrow'), <- Hid.
  by apply select_job_unique.
Qed.

Lemma listed_same_id limit w j row :
  NoDup (j_id <$> jobs (conn w)) → j ∈ jobs (conn w) →
  row ∈ listed limit w → j_id row = j_id j → row = j.
Proof.
  intros Hnd Hj Hrow Hid.
  destruct (listed_rows limit (conn w) Hnd) as [_ Hin].
  pose proof (Hin row Hrow) as Hrow'.
  assert (Some row = Some j) as [= ->]; [|done].
  rewrite <- (select_job_unique (conn w) row Hnd Hrow'), Hid.
  by apply select_job_unique.
Qed.

Lemma wf_world_stale e w j p :
  wf_world w → j ∈ jobs (conn w) →
  j_status j = Running → j_pid j = Some p → kill0 e p = false →
  stale e j = true.
Proof.
  intros (_ & _ & Hrows & _) Hj Hs Hp Hk.
  rewrite Forall_forall in Hrows. destruct (Hrows j Hj) as [Hpos _].
  rewrite Hp in Hpos. apply stale_spec. split; [done|].
  exists p. repeat split; [done | lia | done].
Qed.

Lemma stale_running e j : stale e j = true → j_status j = Running.
Proof. intros H%stale_spec. tauto. Qed.

Lemma not_running_fresh e j : j_status j ≠ Running → stale e j = false.
Proof.
  intros Hs. destruct (stale e j) eqn:H; [|done].
  by apply stale_running in H.
Qed.

(** C4. On every read of a job (status check, result fetch, listing), a
    row recorded as ['running'] whose stored pid fails the liveness probe is
    rewritten to ['done'] with a completion timestamp, all its other fields
    as they were, so that exit code and error stay null; a row whose status
    is not ['running'] is left as it is and shown as it is. *)
Theorem reconciler_lazy_correction e o w j :
  wf_world w → j ∈ jobs (conn w) → reads o (j_id j) w →
  (j_status j = Running → (∃ p, j_pid j = Some p ∧ kill0 e p = false) →
   ∃ t j',
     select_job (j_id j) (conn (run e o w)) = Some j' ∧
     j' = set_finished_at (Some t) (set_status Done j) ∧
     j_status j' = Done ∧ j_finished_at j' = Some t ∧
     j_exit_code j' = None ∧ j_error j' = None) ∧
  (j_status j ≠ Running →
   select_job (j_id j) (conn (run e o w)) = Some j ∧
   shown o j ∈ printed_by w (run e o w)).
Proof.
  intros Hwf Hj Hreads.
  pose proof Hwf as (Hnd & _ & Hrows & _).
  pose proof (select_job_unique _ _ Hnd Hj) as Hsel.
  assert (∀ db t, select_job (j_id j) db = Some j →
            select_job (j_id j) (update_job (j_id j) (mark_done t) db)
            = Some (mark_done t j)) as Hupd.
  { intros db t H. rewrite select_job_update, H by auto with rows.
    simpl. by rewrite where_id_eq. }
  assert (j_status j = Running →
          ∀ t, j_exit_code (mark_done t j) = None ∧ j_error (mark_done t j) = None)
    as Hnull.
  { intros Hs t. rewrite Forall_forall in Hrows.
    destruct (Hrows j Hj) as [_ Hrun]. destruct (Hrun Hs) as (_ & ? & ?).
    by destruct j. }
  split.
  - intros Hs (p & Hp & Hk).
    pose proof (wf_world_stale e w j p Hwf Hj Hs Hp Hk) as Hst.
    destruct o; simpl in Hreads; try done.
    + subst job_id. simpl.
      destruct (get_job_status_found e _ w j Hsel) as (-> & _).
      rewrite Hst. exists (clock e (ticks w)), (mark_done (clock e (ticks w)) j).
      rewrite Hupd by done. destruct (Hnull Hs (clock e (ticks w))). done.
    + subst job_id. simpl.
      destruct (get_job_result_found e _ tail w j Hsel) as (-> & _).
      rewrite Hst. exists (clock e (ticks w)), (mark_done (clock e (ticks w)) j).
      rewrite Hupd by done. destruct (Hnull Hs (clock e (ticks w))). done.
    + pose proof (listed_row limit w j Hnd Hj Hreads) as Hin.
      simpl. rewrite list_jobs_rows by (intros Hnil; rewrite Hnil in Hin; by apply elem_of_nil in Hin).
      destruct (listed_rows limit (conn w) Hnd) as [Hnd' _].
      destruct (list_rows_select_stale e (listed limit w) (init w) j Hnd' Hin Hst)
        as [t Ht].
      exists t, (mark_done t j).
      change (conn (init w)) with (conn w) in Ht. rewrite Ht, Hsel.
      destruct (Hnull Hs t). done.
  - intros Hs. pose proof (not_running_fresh e j Hs) as Hst.
    destruct o; simpl in Hreads; try done.
    + subst job_id. simpl.
      destruct (get_job_status_found e _ w j Hsel) as (-> & Hout & _).
      rewrite Hst. split; [done|].
      rewrite (printed_by_app _ _ _ Hout). unfold view. rewrite Hst.
      apply list_elem_of_singleton. done.
    + subst job_id. simpl.
      destruct (get_job_result_found e _ tail w j Hsel) as (-> & Hout & _).
      rewrite Hst. split; [done|].
      rewrite (printed_by_app _ _ _ Hout). unfold view. rewrite Hst.
      apply list_elem_of_singleton. done.
    + pose proof (listed_row limit w j Hnd Hj Hreads) as Hin.
      simpl. rewrite list_jobs_rows by (intros Hnil; rewrite Hnil in Hin; by apply elem_of_nil in Hin).
      split.
      * rewrite list_rows_select_other; [done|].
        intros row Hrow Hstale Hid.
        rewrite (listed_same_id limit w j row Hnd Hj Hrow Hid) in Hstale.
        congruence.
      * rewrite (printed_by_app w _ _ (list_rows_stdout e _ (init w))).
        apply list_elem_of_fmap. exists j. split; [|done].
        unfold view. by rewrite Hst.
Qed.

Lemma pidless_fresh e j : j_pid j = None → stale e j = false.
Proof. intros Hp. unfold stale. rewrite Hp. apply andb_false_r. Qed.

(** A single-row read leaves every row it does not correct in place. *)
Lemma reconciled_other e row t db k :
  (stale e row = true → j_id row ≠ k) →
  select_job k (if stale e row then update_job (j_id row) (mark_done t) db else db)
  = select_job k db.
Proof.
  intros Hk. destruct (stale e row); [|done].
  apply select_job_update_ne; [auto with rows|].
  intros ->. by apply Hk.
Qed.

(** A read leaves every row that it does not find stale as it is. *)
Lemma read_leaves_fresh_row e o w j :
  NoDup (j_id <$> jobs (conn w)) → j ∈ jobs (conn w) →
  stale e j = false → is_read o →
  select_job (j_id j) (conn (run e o w)) = Some j.
Proof.
  intros Hnd Hj Hst Hread.
  pose proof (select_job_unique _ _ Hnd Hj) as Hsel.
  destruct o; simpl in Hread; try done; simpl.
  - destruct (select_job job_id (conn w)) as [row|] eqn:Hrow.
    + destruct (get_job_status_found e _ w row Hrow) as (-> & _).
      rewrite reconciled_other; [done|].
      intros Hstale Hid. apply select_job_Some in Hrow as [Hrow _].
      assert (Some row = Some j) as [= ->]; [|congruence].
      rewrite <- (select_job_unique _ _ Hnd Hrow), Hid. done.
    + by rewrite get_job_status_missing.
  - destruct (select_job job_id (conn w)) as [row|] eqn:Hrow.
    + destruct (get_job_result_found e _ tail w row Hrow) as (-> & _).
      rewrite reconciled_other; [done|].
      intros Hstale Hid. apply select_job_Some in Hrow as [Hrow _].
      assert (Some row = Some j) as [= ->]; [|congruence].
      rewrite <- (select_job_unique _ _ Hnd Hrow), Hid. done.
    + by rewrite get_job_result_missing.
  - destruct (decide (listed limit w = [])) as [Hnil|Hne].
    + by rewrite list_jobs_empty.
    + rewrite list_jobs_rows by done.
      rewrite list_rows_select_other; [done|].
      intros row Hrow Hstale Hid.
      rewrite (listed_same_id limit w j row Hnd Hj Hrow Hid) in Hstale.
      congruence.
Qed.

(** C9. A row that is ['running'] with a null pid is never completed by
    the reconciler: after every read operation (of this job, of another
    job, or a listing) the row is exactly as it was, a read of the job
    shows it unchanged, and a status check or result fetch of the job
    touches neither the database nor the process table. *)
Theorem reconciler_skips_pidless e o w j :
  NoDup (j_id <$> jobs (conn w)) → j ∈ jobs (conn w) →
  j_status j = Running → j_pid j = None → is_read o →
  select_job (j_id j) (conn (run e o w)) = Some j ∧
  (reads o (j_id j) w → shown o j ∈ printed_by w (run e o w)) ∧
  ((o = StatusOf (j_id j) ∨ ∃ tail, o = ResultOf (j_id j) tail) →
   conn (run e o w) = conn w ∧ syscalls (run e o w) = syscalls w).
Proof.
  intros Hnd Hj Hs Hp Hread.
  pose proof (select_job_unique _ _ Hnd Hj) as Hsel.
  pose proof (pidless_fresh e j Hp) as Hst.
  split; [by apply read_leaves_fresh_row|].
  destruct o; simpl in Hread; try done; simpl.
  - split.
    + intros ->.
      destruct (get_job_status_found e _ w j Hsel) as (_ & Hout & _).
      rewrite (printed_by_app _ _ _ Hout). unfold view. rewrite Hst.
      by apply list_elem_of_singleton.
    + intros [[= ->] | [tail [=]]].
      unfold get_job_status. change (conn (init w)) with (conn w).
      rewrite Hsel, reconcile_pidless by done. done.
  - split.
    + intros ->.
      destruct (get_job_result_found e _ tail w j Hsel) as (_ & Hout & _).
      rewrite (printed_by_app _ _ _ Hout). unfold view. rewrite Hst.
      by apply list_elem_of_singleton.
    + intros [[=] | [tail' [= -> ->]]].
      unfold get_job_result. change (conn (init w)) with (conn w).
      rewrite Hsel, reconcile_pidless by done. done.
  - split.
    + intros Hreads.
      pose proof (listed_row limit w j Hnd Hj Hreads) as Hin.
      rewrite list_jobs_rows
        by (intros Hnil; rewrite Hnil in Hin; by apply elem_of_nil in Hin).
      rewrite (printed_by_app w _ _ (list_rows_stdout e _ (init w))).
      apply list_elem_of_fmap. exists j. split; [|done].
      unfold view. by rewrite Hst.
    + intros [[=] | [tail [=]]].
Qed.

(** ** Well-formedness is an invariant *)

Lemma wf_world_ext w w' :
  jobs (conn w') = jobs (conn w) → jobs_seq (conn w') = jobs_seq (conn w) →
  watchers w' = watchers w → wf_world w → wf_world w'.
Proof.
  unfold wf_world, wf_watcher. intros -> -> ->. done.
Qed.


Lemma wf_world_init w : wf_world w → wf_world (init w).
Proof. by apply wf_world_ext. Qed.

Lemma wf_world_print o w : wf_world w → wf_world (print o w).
Proof. by apply wf_world_ext. Qed.

Lemma wf_world_syscall c w : wf_world w → wf_world (syscall c w).
Proof. by apply wf_world_ext. Qed.

Lemma wf_world_now_iso e w : wf_world w → wf_world (now_iso e w).2.
Proof. by apply wf_world_ext. Qed.

Lemma wf_world_with_files f w : wf_world w → wf_world (with_files f w).
Proof. by apply wf_world_ext. Qed.

Lemma wf_world_insert_notification i m t w :
  wf_world w → wf_world (exec (insert_notification i m t) w).
Proof. by apply wf_world_ext. Qed.

Lemma wf_world_mark_delivered i w :
  wf_world w → wf_world (exec (mark_delivered i) w).
Proof. by apply wf_world_ext. Qed.

Lemma wf_world_delete_notifications i w :
  wf_world w → wf_world (exec (delete_notifications i) w).
Proof. by apply wf_world_ext. Qed.

Lemma wf_world_update i f w :
  keeps_id f → (∀ j, j_pid (f j) = j_pid j) → (∀ j, wf_row j → wf_row (f j)) →
  wf_world w → wf_world (exec (update_job i f) w).
Proof.
  intros Hid Hpid Hrow (Hnd & Hseq & Hrows & Hwt).
  unfold wf_world. rewrite conn_exec.
  split; [|split; [|split]].
  - by rewrite ids_update_job.
  - rewrite jobs_update_job, Forall_fmap. eapply Forall_impl; [exact Hseq|].
    intros j Hj. simpl. by rewrite (where_id_keeps_id i f Hid).
  - rewrite jobs_update_job, Forall_fmap. eapply Forall_impl; [exact Hrows|].
    intros j Hj. simpl. unfold where_id. case_decide; auto.
  - eapply Forall_impl; [exact Hwt|]. intros wt [Hle Hall]. split; [done|].
    rewrite jobs_update_job, Forall_fmap. eapply Forall_impl; [exact Hall|].
    intros j Hj. simpl. rewrite (where_id_keeps_id i f Hid).
    unfold where_id. case_decide; [rewrite Hpid|]; done.
Qed.

Lemma Forall_sublist {A} (P : A → Prop) (l k : list A) :
  l `sublist_of` k → Forall P k → Forall P l.
Proof.
  rewrite !Forall_forall. intros Hsub Hk x Hx.
  apply Hk. by eapply elem_of_sublist.
Qed.

Lemma wf_world_delete_job i w :
  wf_world w → wf_world (exec (delete_job i) w).
Proof.
  intros (Hnd & Hseq & Hrows & Hwt).
  assert (filter (λ j, j_id j ≠ i) (jobs (conn w)) `sublist_of` jobs (conn w))
    as Hsub by apply sublist_filter.
  unfold wf_world. rewrite conn_exec. simpl.
  split; [|split; [|split]].
  - eapply sublist_NoDup; [exact Hnd | by apply fmap_sublist].
  - eapply Forall_sublist; [exact Hsub | exact Hseq].
  - eapply Forall_sublist; [exact Hsub | exact Hrows].
  - eapply Forall_impl; [exact Hwt|]. intros wt [Hle Hall]. split; [done|].
    simpl. eapply Forall_sublist; [exact Hsub | exact Hall].
Qed.

Lemma wf_row_mark_done t j : wf_row j → wf_row (mark_done t j).
Proof. intros [Hp _]. split; [by destruct j | by destruct j]. Qed.

Lemma wf_world_reconcile e job w :
  wf_world w → wf_world (check_and_update_status e job w).2.
Proof.
  intros Hwf. unfold check_and_update_status.
  case_decide; [done|]. destruct (truthy (j_pid job)); simpl; [|done].
  destruct (j_pid job) as [p|]; [|done].
  destruct (kill0 e p); simpl; [by apply wf_world_syscall|].
  apply wf_world_update;
    [auto with rows | by intros [] | apply wf_row_mark_done |].
  by apply (wf_world_ext w).
Qed.

Lemma foldl_invariant {A B} (P : A → Prop) (f : A → B → A) (l : list B) (a : A) :
  (∀ a b, P a → P (f a b)) → P a → P (foldl f a l).
Proof.
  intros Hf. revert a. induction l as [|b l IH]; intros a Ha; simpl; auto.
Qed.

Lemma next_rowid_fresh seq ids :
  seq < next_rowid seq ids ∧ Forall (λ i, i < next_rowid seq ids) ids.
Proof.
  unfold next_rowid. induction ids as [|i ids [IH1 IH2]]; simpl.
  - split; [lia | constructor].
  - split; [lia|]. constructor; [lia|].
    eapply Forall_impl; [exact IH2|]. simpl. intros j ?. lia.
Qed.

Lemma where_id_fresh i f l :
  Forall (λ j, j_id j ≠ i) l → where_id i f <$> l = l.
Proof.
  induction 1 as [|j l Hj _ IH]; [done|].
  by rewrite fmap_cons, IH, where_id_ne.
Qed.

Lemma submit_job_conn e command label w :
  conn (submit_job e command label w).2 =
  match popen e command with
  | None => conn w
  | Some p =>
      mkDatabase (jobs (conn w) ++ [launched_row e command label p w])
        (j_id (launched_row e command label p w))
        (notifications (conn w)) (notifications_seq (conn w))
  end.
Proof.
  unfold submit_job, now_iso, insert_job, launched_row. simpl.
  change (conn (init w)) with (conn w).
  destruct (popen e command) as [p|]; [|done].
  destruct (next_rowid_fresh (jobs_seq (conn w)) (j_id <$> jobs (conn w)))
    as [_ H].
  set (i := next_rowid _ _) in *.
  assert (Forall (λ j, j_id j ≠ i) (jobs (conn w))) as Hfresh.
  { rewrite Forall_fmap in H.
    eapply Forall_impl; [exact H|]. simpl. intros j ?. lia. }
  assert (∀ w', conn w' =
            update_job i (λ j, set_output_file (Some (out_path i))
                                 (set_pid (Some (Z.pos p)) j))
              (mkDatabase
                 (jobs (conn w) ++
                    [mkJob i command label Running None (clock e (ticks w))
                       None None None None])
                 i (notifications (conn w)) (notifications_seq (conn w))) →
          conn w' =
            mkDatabase
              (jobs (conn w) ++
                 [mkJob i command label Running (Some (Z.pos p))
                    (clock e (ticks w)) None None (Some (out_path i)) None])
              i (notifications (conn w)) (notifications_seq (conn w))) as Hdb.
  { intros w' ->. unfold update_job, set_jobs. simpl.
    rewrite fmap_app, where_id_fresh by done. simpl.
    by rewrite where_id_eq. }
  destruct (popen_watcher e); by apply Hdb.
Qed.

Lemma submit_job_watchers e command label w :
  watchers (submit_job e command label w).2 =
  match popen e command with
  | Some p =>
      if popen_watcher e
      then
        let i := j_id (launched_row e command label p w) in
        watchers w ++ [mkWatcher i (Z.pos p) (out_path i) (err_path i)]
      else watchers w
  | None => watchers w
  end.
Proof.
  unfold submit_job, now_iso, insert_job, launched_row. simpl.
  destruct (popen e command) as [p|]; [|done].
  by destruct (popen_watcher e).
Qed.

Lemma wf_world_submit e command label w :
  wf_world w → wf_world (submit_job e command label w).2.
Proof.
  intros Hwf. pose proof Hwf as (Hnd & Hseq & Hrows & Hwt).
  pose proof (submit_job_conn e command label w) as Hdb.
  pose proof (submit_job_watchers e command label w) as Hws.
  destruct (popen e command) as [p|];
    [|by apply (wf_world_ext w); [rewrite Hdb..|rewrite Hws|]].
  destruct (next_rowid_fresh (jobs_seq (conn w)) (j_id <$> jobs (conn w)))
    as [Hlt Hall].
  rewrite Forall_fmap in Hall.
  assert (j_id (launched_row e command label p w)
          = next_rowid (jobs_seq (conn w)) (j_id <$> jobs (conn w))) as Hid
    by reflexivity.
  assert (wf_row (launched_row e command label p w)) as Hrow
    by (split; simpl; [lia | done]).
  assert (j_pid (launched_row e command label p w) = Some (Z.pos p)) as Hpid
    by reflexivity.
  rewrite <- Hid in Hlt, Hall.
  revert Hdb Hws Hlt Hall Hid Hrow Hpid.
  generalize (launched_row e command label p w).
  intros row Hdb Hws Hlt Hall _ Hrow Hpid. simpl in Hws.
  assert (Forall (wf_watcher (conn (submit_job e command label w).2)) (watchers w))
    as Hold.
  { eapply Forall_impl; [exact Hwt|]. intros wt [Hle Hjobs]. rewrite Hdb.
    split; simpl; [lia|].
    apply Forall_app. split; [done|]. constructor; [|constructor].
    lia. }
  unfold wf_world. rewrite Hws.
  split; [|split; [|split]].
  - rewrite Hdb. simpl. rewrite fmap_app. apply NoDup_app. split; [done|].
    split; [|apply NoDup_singleton].
    intros i Hi ->%list_elem_of_singleton.
    apply list_elem_of_fmap in Hi as (j & Hij & Hj).
    rewrite Forall_forall in Hall. specialize (Hall j Hj). simpl in Hall. lia.
  - rewrite Hdb. simpl. apply Forall_app. split.
    + eapply Forall_impl; [exact Hall|]. simpl. intros j ?. lia.
    + constructor; [lia | constructor].
  - rewrite Hdb. simpl. apply Forall_app. split; [done|].
    constructor; [done | constructor].
  - destruct (popen_watcher e); [|done].
    apply Forall_app. split; [done|]. constructor; [|constructor].
    rewrite Hdb. split; simpl; [lia|].
    apply Forall_app. split.
    + eapply Forall_impl; [exact Hall|]. simpl. intros j ?. lia.
    + constructor; [done | constructor].
Qed.

Lemma update_job_twice i f g db :
  keeps_id f →
  update_job i g (update_job i f db) = update_job i (λ j, g (f j)) db.
Proof.
  intros Hf. unfold update_job, set_jobs. simpl. f_equal.
  rewrite <- list_fmap_compose. apply list_fmap_ext. intros k j _. simpl.
  unfold where_id at 2 3. case_decide as Hj.
  - rewrite where_id_eq; [done | by rewrite Hf].
  - by rewrite where_id_ne.
Qed.

Lemma finalize_conn e wt w :
  conn (finalize e wt w) =
  insert_notification (w_job_id wt) (message_of wt w) (clock e (ticks w))
    (update_job (w_job_id wt)
       (finalized (err_text_of wt w) (clock e (ticks w))) (conn w)).
Proof.
  unfold finalize, now_iso, message_of, finalized. lazy beta iota zeta.
  destruct (decide (err_text_of wt w = "")) as [Herr|Herr].
  - by rewrite !conn_exec.
  - rewrite !conn_exec. by rewrite update_job_twice by auto with rows.
Qed.

Lemma finalize_frame e wt w :
  watchers (finalize e wt w) = watchers w ∧ files (finalize e wt w) = files w ∧
  stdout (finalize e wt w) = stdout w ∧ syscalls (finalize e wt w) = syscalls w.
Proof. unfold finalize, now_iso. simpl. by case_decide. Qed.

Lemma keeps_id_finalized err t : keeps_id (finalized err t).
Proof. intros j. unfold finalized. case_decide; by destruct j. Qed.
#[global] Hint Resolve keeps_id_finalized : rows.

Lemma finalized_status err t j : j_status (finalized err t j) = Done.
Proof. unfold finalized. case_decide; by destruct j. Qed.

Lemma finalized_pid err t j : j_pid (finalized err t j) = j_pid j.
Proof. unfold finalized. case_decide; by destruct j. Qed.

Lemma wf_world_finalize e wt w : wf_world w → wf_world (finalize e wt w).
Proof.
  intros Hwf.
  apply (wf_world_ext
           (exec (update_job (w_job_id wt)
                    (finalized (err_text_of wt w) (clock e (ticks w)))) w)).
  - by rewrite finalize_conn.
  - by rewrite finalize_conn.
  - by destruct (finalize_frame e wt w) as (-> & _).
  - apply wf_world_update; [auto with rows | apply finalized_pid | | done].
    intros j [Hp _]. split; [by rewrite finalized_pid|].
    by rewrite finalized_status.
Qed.

Lemma wf_world_run_watcher e wt w : wf_world w → wf_world (run_watcher e wt w).
Proof.
  intros Hwf. unfold run_watcher.
  destruct (kill0 e (w_pid wt)); [by apply wf_world_syscall|].
  by apply wf_world_finalize, wf_world_syscall.
Qed.

Lemma wf_world_get_job_status e i w : wf_world w → wf_world (get_job_status e i w).
Proof.
  intros Hwf. unfold get_job_status.
  destruct (select_job i (conn (init w))) as [row|].
  - pose proof (wf_world_reconcile e row (init w) (wf_world_init w Hwf)).
    destruct (check_and_update_status e row (init w)). by apply wf_world_print.
  - by apply wf_world_print, wf_world_init.
Qed.

Lemma wf_world_get_job_result e i tail w :
  wf_world w → wf_world (get_job_result e i tail w).
Proof.
  intros Hwf. unfold get_job_result.
  destruct (select_job i (conn (init w))) as [row|].
  - pose proof (wf_world_reconcile e row (init w) (wf_world_init w Hwf)).
    destruct (check_and_update_status e row (init w)). by apply wf_world_print.
  - by apply wf_world_print, wf_world_init.
Qed.

Lemma wf_world_list_row e w row : wf_world w → wf_world (list_row e w row).
Proof.
  intros Hwf. unfold list_row.
  pose proof (wf_world_reconcile e row w Hwf).
  destruct (check_and_update_status e row w). by apply wf_world_print.
Qed.

Lemma wf_world_list_jobs e limit w : wf_world w → wf_world (list_jobs e limit w).
Proof.
  intros Hwf. unfold list_jobs.
  destruct (sql_limit limit _) as [|r rows].
  - by apply wf_world_print, wf_world_init.
  - apply foldl_invariant; [intros; by apply wf_world_list_row|].
    by apply wf_world_init.
Qed.

Lemma wf_world_signal_group e job w : wf_world w → wf_world (signal_group e job w).
Proof.
  intros Hwf. unfold signal_group.
  destruct (j_pid job) as [p|]; [|done]. case_decide; [done|].
  destruct (getpgid e p) as [g|].
  - destruct (killpg e g); by apply wf_world_print, wf_world_syscall, wf_world_syscall.
  - by apply wf_world_print, wf_world_syscall.
Qed.

Lemma wf_world_cancel_job e i w : wf_world w → wf_world (cancel_job e i w).
Proof.
  intros Hwf. unfold cancel_job.
  destruct (select_job i (conn (init w))) as [job|];
    [|by apply wf_world_print, wf_world_init].
  case_decide; [by apply wf_world_print, wf_world_init|].
  unfold now_iso. apply wf_world_print.
  apply wf_world_update; [auto with rows | by intros [] | |].
  - intros j [Hp _]. split; [by destruct j | by destruct j].
  - apply (wf_world_ext (signal_group e job (init w))); try done.
    by apply wf_world_signal_group, wf_world_init.
Qed.

Lemma wf_world_get_notifications w : wf_world w → wf_world (get_notifications w).
Proof.
  intros Hwf. unfold get_notifications.
  destruct (pending _) as [|r rows].
  - by apply wf_world_print, wf_world_init.
  - apply foldl_invariant; [|by apply wf_world_init].
    intros a b Ha. unfold deliver.
    by apply wf_world_mark_delivered, wf_world_print.
Qed.

Lemma wf_world_clean_row w row : wf_world w → wf_world (clean_row w row).
Proof.
  intros Hwf. unfold clean_row.
  apply wf_world_delete_job, wf_world_delete_notifications.
  destruct (j_output_file row); [by apply wf_world_with_files | done].
Qed.

Lemma wf_world_clean_jobs keep w : wf_world w → wf_world (clean_jobs keep w).
Proof.
  intros Hwf. unfold clean_jobs.
  destruct (to_clean keep _) as [|r rows].
  - by apply wf_world_print, wf_world_init.
  - apply wf_world_print, foldl_invariant; [|by apply wf_world_init].
    intros; by apply wf_world_clean_row.
Qed.

Lemma wf_world_emit p s w : wf_world w → wf_world (emit p s w).
Proof.
  intros Hwf. unfold emit. by destruct (files w !! p) as [[]|].
Qed.

(** Every step of the supervisor keeps the world well formed. *)
Lemma wf_world_run e o w : wf_world w → wf_world (run e o w).
Proof.
  intros Hwf. destruct o; simpl.
  - by apply wf_world_submit.
  - case_decide; [by apply wf_world_run_watcher | done].
  - by apply wf_world_get_job_status.
  - by apply wf_world_get_job_result.
  - by apply wf_world_list_jobs.
  - by apply wf_world_cancel_job.
  - by apply wf_world_get_notifications.
  - by apply wf_world_clean_jobs.
  - by apply wf_world_emit.
Qed.


(** ** Cleanup *)

Lemma filter_filter_and {A} (P Q : A → Prop) `{!∀ x, Decision (P x)}
    `{!∀ x, Decision (Q x)} (l : list A) :
  filter P (filter Q l) = filter (λ x, Q x ∧ P x) l.
Proof.
  induction l as [|x l IH]; [done|].
  rewrite (filter_cons Q), (filter_cons (λ x, Q x ∧ P x)).
  destruct (decide (Q x)) as [HQ|HQ].
  - rewrite filter_cons. destruct (decide (P x)) as [HP|HP].
    + rewrite decide_True by done. by rewrite IH.
    + rewrite decide_False by tauto. done.
  - rewrite decide_False by tauto. done.
Qed.

Lemma filter_all {A} (P : A → Prop) `{!∀ x, Decision (P x)} (l : list A) :
  Forall P l → filter P l = l.
Proof.
  induction 1 as [|x l Hx _ IH]; [done|].
  by rewrite filter_cons_True, IH.
Qed.

Lemma clean_row_jobs w row :
  jobs (conn (clean_row w row)) = filter (λ j, j_id j ≠ j_id row) (jobs (conn w)).
Proof. unfold clean_row. by destruct (j_output_file row). Qed.

Lemma clean_row_notifications w row :
  notifications (conn (clean_row w row)) =
  filter (λ n, n_job_id n ≠ j_id row) (notifications (conn w)).
Proof. unfold clean_row. by destruct (j_output_file row). Qed.

Lemma clean_row_files w row :
  files (clean_row w row) = foldl (λ fs p, delete p fs) (files w) (doomed row).
Proof. unfold clean_row, doomed. by destruct (j_output_file row). Qed.

Lemma clean_row_frame w row :
  jobs_seq (conn (clean_row w row)) = jobs_seq (conn w) ∧
  notifications_seq (conn (clean_row w row)) = notifications_seq (conn w) ∧
  watchers (clean_row w row) = watchers w ∧
  syscalls (clean_row w row) = syscalls w ∧
  stdout (clean_row w row) = stdout w.
Proof. unfold clean_row. by destruct (j_output_file row). Qed.

Lemma clean_rows_jobs rows w :
  jobs (conn (foldl clean_row w rows)) =
  filter (λ j, j_id j ∉ j_id <$> rows) (jobs (conn w)).
Proof.
  revert w. induction rows as [|r rows IH]; intros w; simpl.
  - symmetry. apply filter_all, Forall_forall. intros j _. apply not_elem_of_nil.
  - rewrite IH, clean_row_jobs, filter_filter_and.
    apply list_filter_iff. intros j. rewrite not_elem_of_cons. tauto.
Qed.

Lemma clean_rows_notifications rows w :
  notifications (conn (foldl clean_row w rows)) =
  filter (λ n, n_job_id n ∉ j_id <$> rows) (notifications (conn w)).
Proof.
  revert w. induction rows as [|r rows IH]; intros w; simpl.
  - symmetry. apply filter_all, Forall_forall. intros j _. apply not_elem_of_nil.
  - rewrite IH, clean_row_notifications, filter_filter_and.
    apply list_filter_iff. intros j. rewrite not_elem_of_cons. tauto.
Qed.

Lemma lookup_deletes (fs : gmap Path FileData) (ps : list Path) (p : Path) :
  foldl (λ fs p, delete p fs) fs ps !! p =
  if decide (p ∈ ps) then None else fs !! p.
Proof.
  revert fs. induction ps as [|q ps IH]; intros fs.
  - rewrite decide_False; [done | apply not_elem_of_nil].
  - change (foldl (λ fs p, delete p fs) fs (q :: ps))
      with (foldl (λ fs p, delete p fs) (delete q fs) ps).
    rewrite IH. destruct (decide (p ∈ ps)) as [Hin|Hin].
    + rewrite decide_True; [done | by right].
    + destruct (decide (p = q)) as [->|Hne].
      * rewrite decide_True by left. apply lookup_delete_eq.
      * rewrite decide_False by (rewrite elem_of_cons; tauto).
        by apply lookup_delete_ne.
Qed.

Lemma clean_rows_files rows w p :
  files (foldl clean_row w rows) !! p =
  if decide (p ∈ rows ≫= doomed) then None else files w !! p.
Proof.
  revert w. induction rows as [|r rows IH]; intros w.
  - rewrite decide_False; [done | apply not_elem_of_nil].
  - change (foldl clean_row w (r :: rows))
      with (foldl clean_row (clean_row w r) rows).
    rewrite bind_cons, IH, clean_row_files, lookup_deletes.
    destruct (decide (p ∈ rows ≫= doomed)) as [Hin|Hin].
    + rewrite decide_True; [done | apply elem_of_app; by right].
    + destruct (decide (p ∈ doomed r)) as [Hr|Hr].
      * rewrite decide_True; [done | apply elem_of_app; by left].
      * rewrite decide_False; [done | rewrite elem_of_app; tauto].
Qed.

Lemma clean_rows_frame rows w :
  jobs_seq (conn (foldl clean_row w rows)) = jobs_seq (conn w) ∧
  notifications_seq (conn (foldl clean_row w rows)) = notifications_seq (conn w) ∧
  watchers (foldl clean_row w rows) = watchers w ∧
  syscalls (foldl clean_row w rows) = syscalls w ∧
  stdout (foldl clean_row w rows) = stdout w.
Proof.
  revert w. induction rows as [|r rows IH]; intros w; simpl; [done|].
  destruct (IH (clean_row w r)) as (-> & -> & -> & -> & ->).
  apply clean_row_frame.
Qed.

(** What [clean_jobs] does, in terms of the rows it selected. *)
Lemma clean_jobs_effect keep w :
  let rows := to_clean keep (conn w) in
  let w' := clean_jobs keep w in
  jobs (conn w') = filter (λ j, j_id j ∉ j_id <$> rows) (jobs (conn w)) ∧
  notifications (conn w') =
    filter (λ n, n_job_id n ∉ j_id <$> rows) (notifications (conn w)) ∧
  (∀ p, files w' !! p = if decide (p ∈ rows ≫= doomed) then None else files w !! p) ∧
  jobs_seq (conn w') = jobs_seq (conn w) ∧
  watchers w' = watchers w ∧ syscalls w' = syscalls w.
Proof.
  simpl. unfold clean_jobs. change (conn (init w)) with (conn w).
  destruct (to_clean keep (conn w)) as [|r rows] eqn:Hrows.
  - simpl. repeat split.
    + symmetry. apply filter_all, Forall_forall. intros j _. apply not_elem_of_nil.
    + symmetry. apply filter_all, Forall_forall. intros j _. apply not_elem_of_nil.
  - rewrite conn_print.
    pose proof (clean_rows_jobs (r :: rows) (init w)) as Hj.
    pose proof (clean_rows_notifications (r :: rows) (init w)) as Hn.
    pose proof (clean_rows_frame (r :: rows) (init w)) as (Hs & _ & Hw & Hc & _).
    repeat split; try done.
    intros p. apply (clean_rows_files (r :: rows) (init w) p).
Qed.

Lemma doomed_recorded rows :
  Forall (λ j, j_output_file j = Some (out_path (j_id j))) rows →
  rows ≫= doomed = (j_id <$> rows) ≫= job_files.
Proof.
  induction 1 as [|r rows Hr _ IH]; [done|].
  rewrite fmap_cons, !bind_cons, IH. f_equal.
  unfold doomed. by rewrite Hr.
Qed.

Lemma job_files_owner p (ids : list Z) : p ∈ ids ≫= job_files → owner p ∈ ids.
Proof.
  intros (i & Hp & Hi)%list_elem_of_bind.
  unfold job_files in Hp. rewrite !elem_of_cons in Hp.
  destruct Hp as [->|[->|[->|Hp]]]; [done..|by apply elem_of_nil in Hp].
Qed.

Lemma job_files_same p i : p ∈ job_files i → owner p = i.
Proof.
  unfold job_files. rewrite !elem_of_cons.
  intros [->|[->|[->|Hp]]]; [done..|by apply elem_of_nil in Hp].
Qed.

Lemma to_clean_terminal keep db :
  ∀ row, row ∈ to_clean keep db → row ∈ jobs db ∧ is_terminal (j_status row) = true.
Proof.
  intros row Hrow. unfold to_clean, sql_offset in Hrow.
  pose proof (elem_of_sublist _ _ _ Hrow (sublist_drop _ _)) as Hsorted.
  rewrite merge_sort_Permutation in Hsorted.
  apply list_elem_of_filter in Hsorted as [Ht Hin]. split; [done|].
  by apply Is_true_true.
Qed.

(** C8. For every retain count, the rows [clean_jobs] removes are the
    terminal jobs beyond the [keep] most recent by descending id; for each
    of them the two artifact files, the watcher script, the notifications
    and the row itself are gone afterwards, and nothing else changes: the
    rows, notifications and files of all other jobs, those of the jobs
    still ['running'] among them, are as before. *)
Theorem clean_removes_old_terminal keep w :
  wf_world w → artifacts_recorded w →
  ∃ kept victims : list Job,
    kept ++ victims ≡ₚ filter (λ j, is_terminal (j_status j)) (jobs (conn w)) ∧
    StronglySorted id_desc (kept ++ victims) ∧
    length kept = (Z.to_nat keep `min` length (kept ++ victims))%nat ∧
    jobs (conn (clean_jobs keep w)) =
      filter (λ j, j_id j ∉ j_id <$> victims) (jobs (conn w)) ∧
    notifications (conn (clean_jobs keep w)) =
      filter (λ n, n_job_id n ∉ j_id <$> victims) (notifications (conn w)) ∧
    (∀ p, files (clean_jobs keep w) !! p =
          if decide (p ∈ (j_id <$> victims) ≫= job_files) then None
          else files w !! p) ∧
    (∀ j, j ∈ jobs (conn w) → j_id j ∈ j_id <$> victims ↔ j ∈ victims) ∧
    (∀ j, j ∈ jobs (conn w) → j_status j = Running →
          j ∈ jobs (conn (clean_jobs keep w)) ∧
          (∀ p, p ∈ job_files (j_id j) →
                files (clean_jobs keep w) !! p = files w !! p) ∧
          (∀ n, n ∈ notifications (conn w) → n_job_id n = j_id j →
                n ∈ notifications (conn (clean_jobs keep w)))).
Proof.
  intros (Hnd & _) Hrec.
  set (T := merge_sort id_desc (filter (λ j, is_terminal (j_status j)) (jobs (conn w)))).
  exists (take (Z.to_nat keep) T), (to_clean keep (conn w)).
  assert (take (Z.to_nat keep) T ++ to_clean keep (conn w) = T) as HT
    by apply take_drop.
  destruct (clean_jobs_effect keep w) as (Hjobs & Hnots & Hfiles & _).
  assert (∀ j, j ∈ jobs (conn w) →
            j_id j ∈ j_id <$> to_clean keep (conn w) ↔ j ∈ to_clean keep (conn w))
    as Hvict.
  { intros j Hj. split; [|apply list_elem_of_fmap_2].
    intros (v & Hid & Hv)%list_elem_of_fmap.
    destruct (to_clean_terminal keep (conn w) v Hv) as [Hvin _].
    assert (Some v = Some j) as [= <-]; [|done].
    rewrite <- (select_job_unique _ _ Hnd Hvin), <- Hid.
    by apply select_job_unique. }
  assert (to_clean keep (conn w) ≫= doomed
          = (j_id <$> to_clean keep (conn w)) ≫= job_files) as Hdoomed.
  { apply doomed_recorded, Forall_forall. intros v Hv.
    destruct (to_clean_terminal keep (conn w) v Hv) as [Hvin _].
    unfold artifacts_recorded in Hrec. rewrite Forall_forall in Hrec.
    by apply Hrec. }
  rewrite HT.
  split; [apply merge_sort_Permutation|].
  split; [apply (StronglySorted_merge_sort id_desc)|].
  split; [by rewrite length_take|].
  split; [exact Hjobs|]. split; [exact Hnots|].
  split; [intros p; by rewrite Hfiles, Hdoomed|].
  split; [exact Hvict|].
  - intros j Hj Hs.
    assert (j_id j ∉ j_id <$> to_clean keep (conn w)) as Hnot.
    { rewrite (Hvict j Hj). intros Hv.
      destruct (to_clean_terminal keep (conn w) j Hv) as [_ Ht].
      by rewrite Hs in Ht. }
    split; [|split].
    + rewrite Hjobs. by apply list_elem_of_filter.
    + intros p Hp. rewrite Hfiles, Hdoomed.
      rewrite decide_False; [done|]. intros Hin%job_files_owner.
      by rewrite (job_files_same _ _ Hp) in Hin.
    + intros n Hn Hid. rewrite Hnots. apply list_elem_of_filter.
      split; [by rewrite Hid | done].
Qed.

(** ** Rows without a pid *)

Lemma select_job_jobs k db db' :
  jobs db' = jobs db → select_job k db' = select_job k db.
Proof. unfold select_job. by intros ->. Qed.

Lemma select_job_snoc k db db' row :
  jobs db' = jobs db ++ [row] → j_id row ≠ k →
  select_job k db' = select_job k db.
Proof.
  unfold select_job. intros -> Hk.
  by rewrite filter_app, filter_cons_False, filter_nil, app_nil_r.
Qed.

Lemma select_job_filter_ids k (ids : list Z) db db' :
  jobs db' = filter (λ j, j_id j ∉ ids) (jobs db) → k ∉ ids →
  select_job k db' = select_job k db.
Proof.
  unfold select_job. intros -> Hk. rewrite filter_filter_and. f_equal.
  apply list_filter_iff. intros j. split; [tauto|]. intros ->. done.
Qed.

Lemma get_notifications_jobs w :
  jobs (conn (get_notifications w)) = jobs (conn w).
Proof.
  unfold get_notifications. destruct (pending _) as [|r rows]; [done|].
  apply (foldl_invariant (λ w', jobs (conn w') = jobs (conn w))); [|done].
  by intros a b <-.
Qed.

Lemma cancel_job_other e i w k :
  k ≠ i → select_job k (conn (cancel_job e i w)) = select_job k (conn w).
Proof.
  intros Hk. unfold cancel_job. change (conn (init w)) with (conn w).
  destruct (select_job i (conn w)) as [job|]; [|done].
  case_decide; [done|].
  unfold now_iso. rewrite conn_print, conn_exec.
  rewrite select_job_update_ne by auto with rows.
  apply select_job_jobs. unfold signal_group.
  destruct (j_pid job) as [p|]; [|done]. case_decide; [done|].
  destruct (getpgid e p) as [g|]; [|done]. by destruct (killpg e g).
Qed.



(** ** Cancellation *)

Lemma signal_group_frame e job w :
  conn (signal_group e job w) = conn w ∧ ticks (signal_group e job w) = ticks w ∧
  files (signal_group e job w) = files w ∧
  watchers (signal_group e job w) = watchers w.
Proof.
  unfold signal_group. destruct (j_pid job) as [p|]; [|done].
  case_decide; [done|]. destruct (getpgid e p) as [g|]; [|done].
  by destruct (killpg e g).
Qed.




(** ** Notification delivery *)

Lemma deliver_rows rows w :
  notifications (conn (foldl deliver w rows)) =
    marked (n_id <$> rows) (notifications (conn w)) ∧
  jobs (conn (foldl deliver w rows)) = jobs (conn w) ∧
  stdout (foldl deliver w rows) =
    stdout w ++ ((λ n, PrintMessage (n_message n)) <$> rows).
Proof.
  revert w. induction rows as [|r rows IH]; intros w.
  - split; [|split]; [|done|by rewrite app_nil_r].
    change (foldl deliver w []) with w. unfold marked.
    rewrite <- (list_fmap_id (notifications (conn w))) at 1.
    apply list_fmap_ext. intros i n _.
    case_decide as Hin; [by apply elem_of_nil in Hin | done].
  - change (foldl deliver w (r :: rows)) with (foldl deliver (deliver w r) rows).
    destruct (IH (deliver w r)) as (-> & -> & ->).
    repeat split.
    + unfold deliver, marked. rewrite conn_exec. simpl.
      rewrite <- list_fmap_compose. apply list_fmap_ext. intros i n _. simpl.
      destruct (decide (n_id n = n_id r)) as [Heq|Hne].
      * rewrite (decide_True (P := n_id n ∈ n_id r :: _)) by (rewrite Heq; left).
        by case_decide.
      * destruct (decide (n_id n ∈ n_id <$> rows)) as [Hin|Hin].
        -- rewrite decide_True; [done | by right].
        -- rewrite decide_False; [done | rewrite elem_of_cons; tauto].
    + unfold deliver. simpl. by rewrite <- app_assoc.
Qed.

Lemma pending_spec db :
  pending db ≡ₚ filter (λ n, n_delivered n = 0) (notifications db) ∧
  StronglySorted created_asc (pending db).
Proof.
  split; [apply merge_sort_Permutation|].
  apply (StronglySorted_merge_sort created_asc).
Qed.

Lemma get_notifications_effect w :
  notifications (conn (get_notifications w)) =
    marked (n_id <$> pending (conn w)) (notifications (conn w)) ∧
  stdout (get_notifications w) =
    stdout w ++
      match pending (conn w) with
      | [] => [PrintNoPending]
      | rows => (λ n, PrintMessage (n_message n)) <$> rows
      end.
Proof.
  unfold get_notifications. change (conn (init w)) with (conn w).
  destruct (deliver_rows (pending (conn w)) (init w)) as (Hn & _ & Hs).
  destruct (pending (conn w)) as [|r rows]; [|done].
  split; [apply Hn | done].
Qed.

Lemma marked_pending db :
  Forall (λ n, n_delivered n ≠ 0)
    (marked (n_id <$> pending db) (notifications db)).
Proof.
  unfold marked. rewrite Forall_fmap. apply Forall_forall. intros n Hn. simpl.
  case_decide as Hin; [done|].
  intros Hd. apply Hin, list_elem_of_fmap_2.
  destruct (pending_spec db) as [Hperm _]. rewrite Hperm.
  by apply list_elem_of_filter.
Qed.

Lemma pending_none db :
  Forall (λ n, n_delivered n ≠ 0) (notifications db) → pending db = [].
Proof.
  intros Hall. unfold pending.
  replace (filter (λ n, n_delivered n = 0) (notifications db)) with (@nil Notification);
    [done|].
  symmetry. induction Hall as [|n l Hn _ IH]; [done|].
  by rewrite filter_cons_False.
Qed.

(** C7. [get_notifications] prints the messages of exactly the rows with
    [delivered = 0], in order of creation time, and leaves each of them
    marked [delivered = 1]; no row is pending afterwards, so a second call
    right after it prints no message and changes nothing. *)
Theorem notify_delivers_pending_once w :
  let rows := pending (conn w) in
  let w' := get_notifications w in
  rows ≡ₚ filter (λ n, n_delivered n = 0) (notifications (conn w)) ∧
  StronglySorted created_asc rows ∧
  printed_by w w' =
    match rows with
    | [] => [PrintNoPending]
    | _ => (λ n, PrintMessage (n_message n)) <$> rows
    end ∧
  (∀ n, n ∈ rows → set_delivered 1 n ∈ notifications (conn w')) ∧
  Forall (λ n, n_delivered n ≠ 0) (notifications (conn w')) ∧
  pending (conn w') = [] ∧
  printed_by w' (get_notifications w') = [PrintNoPending] ∧
  conn (get_notifications w') = conn w'.
Proof.
  intros rows w'. subst rows w'.
  destruct (pending_spec (conn w)) as [Hperm Hsorted].
  destruct (get_notifications_effect w) as [Hn Hs].
  assert (Forall (λ n, n_delivered n ≠ 0) (notifications (conn (get_notifications w))))
    as Hall by (rewrite Hn; apply marked_pending).
  pose proof (pending_none _ Hall) as Hnone.
  split; [done|]. split; [done|].
  split; [rewrite (printed_by_app _ _ _ Hs); by destruct (pending (conn w))|].
  split; [|split; [done|]; split; [done|]; split].
  - intros n Hin. rewrite Hn. unfold marked. apply list_elem_of_fmap.
    exists n. split.
    + rewrite decide_True; [done | by apply list_elem_of_fmap_2].
    + rewrite Hperm in Hin. by apply list_elem_of_filter in Hin as [_ ?].
  - apply printed_by_app.
    destruct (get_notifications_effect (get_notifications w)) as [_ ->].
    by rewrite Hnone.
  - unfold get_notifications at 1.
    change (conn (init (get_notifications w))) with (conn (get_notifications w)).
    rewrite Hnone. done.
Qed.

(** ** The completion watcher *)

Lemma str_take_length n s : (String.length (str_take n s) ≤ n)%nat.
Proof.
  revert s. induction n as [|n IH]; intros [|c s]; simpl; try lia.
  specialize (IH s). lia.
Qed.

Lemma finalize_select e wt w :
  select_job (w_job_id wt) (conn (finalize e wt w)) =
  finalized (err_text_of wt w) (clock e (ticks w))
    <$> select_job (w_job_id wt) (conn w).
Proof.
  rewrite finalize_conn.
  rewrite (select_job_jobs _
             (update_job (w_job_id wt)
                (finalized (err_text_of wt w) (clock e (ticks w))) (conn w)))
    by done.
  rewrite select_job_update by auto with rows.
  destruct (select_job (w_job_id wt) (conn w)) as [j|] eqn:Hj; [|done].
  apply select_job_Some in Hj as [_ Hj]. simpl. by rewrite where_id_eq.
Qed.

(** Every run of the finalize step inserts one notification. *)
Lemma finalize_inserts_notification e wt w :
  ∃ n, notifications (conn (finalize e wt w)) = notifications (conn w) ++ [n] ∧
       n_job_id n = w_job_id wt ∧ n_delivered n = 0.
Proof. rewrite finalize_conn. by eexists. Qed.


(** ** Invariants of the rows

    A property of rows that every assignment of the program keeps, and that
    a freshly launched row has, holds of all rows for ever. *)

Section row_invariant.

Variable P : Job → Prop.
Hypothesis P_mark_done : ∀ j t, P j → P (mark_done t j).
Hypothesis P_finalized : ∀ j err t, P j → P (finalized err t j).
Hypothesis P_cancelled :
  ∀ j t, P j → P (set_finished_at (Some t) (set_status Cancelled j)).
Hypothesis P_launched : ∀ e command label p w, P (launched_row e command label p w).






End row_invariant.




(** A launch that fails leaves no row behind. *)
Lemma submit_job_launch_failure e command label w :
  popen e command = None →
  conn (submit_job e command label w).2 = conn w ∧
  (submit_job e command label w).1 = None.
Proof.
  intros Hp. split; [by rewrite submit_job_conn, Hp|].
  unfold submit_job, now_iso, insert_job. simpl. by rewrite Hp.
Qed.

(** ** Status monotonicity *)

(** Apart from the watcher, nothing rewrites a row that is terminal: after
    any other step the row is as it was, or was cleaned away. *)
Lemma terminal_row_stable e o w j :
  wf_world w → j ∈ jobs (conn w) → is_terminal (j_status j) = true →
  (∀ wt, o ≠ Watch wt) →
  select_job (j_id j) (conn (run e o w)) = Some j ∨
  select_job (j_id j) (conn (run e o w)) = None.
Proof.
  intros Hwf Hj Ht Ho. pose proof Hwf as (Hnd & _).
  pose proof (select_job_unique _ _ Hnd Hj) as Hsel.
  assert (j_status j ≠ Running) as Hs by (intros H; by rewrite H in Ht).
  destruct o;
    try (left; by apply read_leaves_fresh_row; [..|apply not_running_fresh|]);
    simpl.
  - left. pose proof (submit_job_conn e command label w) as Hdb.
    destruct (popen e command) as [p|]; [|by rewrite Hdb].
    rewrite (select_job_snoc _ (conn w) _ (launched_row e command label p w));
      [done | by rewrite Hdb |].
    destruct (next_rowid_fresh (jobs_seq (conn w)) (j_id <$> jobs (conn w)))
      as [_ Hall].
    rewrite Forall_fmap, Forall_forall in Hall. specialize (Hall j Hj).
    simpl in *. lia.
  - by destruct (Ho wt).
  - left. destruct (decide (job_id = j_id j)) as [->|Hne].
    + unfold cancel_job. change (conn (init w)) with (conn w).
      by rewrite Hsel, decide_True.
    + rewrite cancel_job_other; [done | congruence].
  - left. by rewrite (select_job_jobs _ (conn w)) by apply get_notifications_jobs.
  - destruct (clean_jobs_effect keep w) as (Hjobs & _).
    destruct (decide (j_id j ∈ j_id <$> to_clean keep (conn w))) as [Hin|Hin].
    + right. apply select_job_None. intros j' Hj'. rewrite Hjobs in Hj'.
      apply list_elem_of_filter in Hj' as [Hn _]. congruence.
    + left. by rewrite (select_job_filter_ids _ _ (conn w) _ Hjobs).
  - left. unfold emit. by destruct (files w !! p) as [[]|].
Qed.

(** What does hold of every step, the watcher included: a terminal row never
    goes back to ['running']. *)
Lemma terminal_never_running e o w j j' :
  wf_world w → j ∈ jobs (conn w) → is_terminal (j_status j) = true →
  j' ∈ jobs (conn (run e o w)) → j_id j' = j_id j →
  is_terminal (j_status j') = true.
Proof.
  intros Hwf Hj Ht Hj' Hid. pose proof Hwf as (Hnd & _).
  destruct (wf_world_run e o w Hwf) as (Hnd' & _).
  pose proof (select_job_unique _ _ Hnd' Hj') as Hsel'. rewrite Hid in Hsel'.
  assert ((∃ wt, o = Watch wt) ∨ (∀ wt, o ≠ Watch wt)) as [[wt ->]|Hne]
    by (destruct o; eauto; right; intros; discriminate).
  - simpl in Hsel'. case_decide.
    + unfold run_watcher in Hsel'. destruct (kill0 e (w_pid wt)).
      * change (conn (syscall _ w)) with (conn w) in Hsel'.
        rewrite (select_job_unique _ _ Hnd Hj) in Hsel'. by injection Hsel' as <-.
      * rewrite finalize_conn in Hsel'. apply select_job_Some in Hsel' as [Hin _].
        simpl in Hin. apply list_elem_of_fmap in Hin as (j0 & -> & Hj0).
        unfold where_id in *. case_decide as Hw.
        -- by rewrite finalized_status.
        -- change (conn (syscall _ w)) with (conn w) in Hj0.
           assert (Some j0 = Some j) as [= ->]; [|done].
           rewrite <- (select_job_unique _ _ Hnd Hj0), Hid.
           by apply select_job_unique.
    + rewrite (select_job_unique _ _ Hnd Hj) in Hsel'. by injection Hsel' as <-.
  - destruct (terminal_row_stable e o w j Hwf Hj Ht Hne) as [Hs|Hs].
    + rewrite Hs in Hsel'. by injection Hsel' as <-.
    + by rewrite Hs in Hsel'.
Qed.

(** C2, where the code breaks it. A job is submitted and cancelled; its
    watcher then sees the process gone and finalizes, and the status that
    was ['cancelled'] becomes ['done']. *)
Theorem watcher_overwrites_cancelled :
  let w1 := run env_live (Cancel 1) world_launched in
  let w2 := run env_gone (Watch first_watcher) w1 in
  first_watcher ∈ watchers world_launched ∧
  j_status <$> select_job 1 (conn world_launched) = Some Running ∧
  j_status <$> select_job 1 (conn w1) = Some Cancelled ∧
  j_status <$> select_job 1 (conn w2) = Some Done.
Proof.
  split; [by left|]. by vm_compute.
Qed.

(** C3, where the code breaks it. Running the finalize step of a job's
    watcher a second time writes again: the row gets a new completion
    timestamp and a second notification is inserted. *)
Theorem finalize_twice_notifies_twice :
  let w1 := run env_gone (Watch first_watcher) world_launched in
  let w2 := run env_gone (Watch first_watcher) w1 in
  j_status <$> select_job 1 (conn w1) = Some Done ∧
  length (filter (λ n, n_job_id n = 1) (notifications (conn w1))) = 1%nat ∧
  length (filter (λ n, n_job_id n = 1) (notifications (conn w2))) = 2%nat ∧
  j_finished_at <$> select_job 1 (conn w1) = Some (Some 2001) ∧
  j_finished_at <$> select_job 1 (conn w2) = Some (Some 2002).
Proof. by vm_compute. Qed.

(** ** Admission *)

Section admission.

Variable is_command_safe : string → Config → bool * string.
Variable is_path_allowed : string → Config → bool * string.
Variable path_patterns : string → list string.

Lemma log_audit_frame e action target command result reason w :
  jobs_db (log_audit e action target command result reason w) = jobs_db w ∧
  files (log_audit e action target command result reason w) = files w ∧
  audit_log (log_audit e action target command result reason w) =
    audit_log w ++
      [mkAuditEntry (clock e (ticks w)) action target command result reason].
Proof. done. Qed.


End admission.


(** ** The properties at work on the sample worlds *)

Ltac by_evaluation := apply (bool_decide_unpack _); vm_compute; exact I.

(** C4 on the sample worlds: the status check of the launched job after its
    process has gone, and a listing that shows a finished job as it is. *)
Lemma reconciler_lazy_correction_witness :
  (∃ t j',
     select_job 1 (conn (run env_gone (StatusOf 1) world_launched)) = Some j' ∧
     j' = set_finished_at (Some t) (set_status Done launched_job) ∧
     j_status j' = Done ∧ j_finished_at j' = Some t ∧
     j_exit_code j' = None ∧ j_error j' = None) ∧
  (select_job 1 (conn (run env_gone (ListJobs 10) world_history))
     = Some (finished_job 1 Done) ∧
   PrintJobLine (finished_job 1 Done)
     ∈ printed_by world_history (run env_gone (ListJobs 10) world_history)).
Proof.
  split.
  - destruct (reconciler_lazy_correction env_gone (StatusOf 1) world_launched
                launched_job) as [H _].
    + by_evaluation.
    + vm_compute. left.
    + reflexivity.
    + apply H; [reflexivity|]. exists 4242. split; reflexivity.
  - destruct (reconciler_lazy_correction env_gone (ListJobs 10) world_history
                (finished_job 1 Done)) as [_ H].
    + by_evaluation.
    + vm_compute. left.
    + by_evaluation.
    + apply H. discriminate.
Defined.

(** C9 on the stuck job: a status check with every process gone leaves it
    alone. *)
Lemma reconciler_skips_pidless_witness :
  select_job 1 (conn (run env_gone (StatusOf 1) world_stuck)) = Some stuck_job ∧
  (reads (StatusOf 1) 1 world_stuck →
   PrintJob stuck_job ∈ printed_by world_stuck (run env_gone (StatusOf 1) world_stuck)) ∧
  ((StatusOf 1 = StatusOf 1 ∨ ∃ tail, StatusOf 1 = ResultOf 1 tail) →
   conn (run env_gone (StatusOf 1) world_stuck) = conn world_stuck ∧
   syscalls (run env_gone (StatusOf 1) world_stuck) = syscalls world_stuck).
Proof.
  apply (reconciler_skips_pidless env_gone (StatusOf 1) world_stuck stuck_job).
  - by_evaluation.
  - vm_compute. left.
  - reflexivity.
  - reflexivity.
  - exact I.
Defined.




(** C8 on the history: [clean_jobs(keep=2)] with five terminal jobs and one
    running removes jobs 1, 2 and 3 and leaves jobs 4, 5 and 6 with their
    files and notifications. *)
Lemma clean_removes_old_terminal_witness :
  jobs (conn (clean_jobs 2 world_history)) =
    [running_job 4; finished_job 5 Done; finished_job 6 Failed] ∧
  notifications (conn (clean_jobs 2 world_history)) =
    [mkNotification 3 5 "Job #5 finished." 205 0] ∧
  dom (files (clean_jobs 2 world_history)) =
    list_to_set ([4; 5; 6] ≫= job_files) ∧
  ∃ kept victims : list Job,
    kept ++ victims ≡ₚ
      filter (λ j, is_terminal (j_status j)) (jobs (conn world_history)) ∧
    StronglySorted id_desc (kept ++ victims) ∧
    length kept = (Z.to_nat 2 `min` length (kept ++ victims))%nat ∧
    jobs (conn (clean_jobs 2 world_history)) =
      filter (λ j, j_id j ∉ j_id <$> victims) (jobs (conn world_history)) ∧
    notifications (conn (clean_jobs 2 world_history)) =
      filter (λ n, n_job_id n ∉ j_id <$> victims)
        (notifications (conn world_history)) ∧
    (∀ p, files (clean_jobs 2 world_history) !! p =
          if decide (p ∈ (j_id <$> victims) ≫= job_files) then None
          else files world_history !! p) ∧
    (∀ j, j ∈ jobs (conn world_history) →
          j_id j ∈ j_id <$> victims ↔ j ∈ victims) ∧
    (∀ j, j ∈ jobs (conn world_history) → j_status j = Running →
          j ∈ jobs (conn (clean_jobs 2 world_history)) ∧
          (∀ p, p ∈ job_files (j_id j) →
                files (clean_jobs 2 world_history) !! p = files world_history !! p) ∧
          (∀ n, n ∈ notifications (conn world_history) → n_job_id n = j_id j →
                n ∈ notifications (conn (clean_jobs 2 world_history)))).
Proof.
  split; [by vm_compute|]. split; [by vm_compute|]. split; [by vm_compute|].
  apply (clean_removes_old_terminal 2 world_history); by_evaluation.
Defined.


(** Delivery on the history: the two pending messages, oldest first, and
    nothing on the second call. *)
Example notify_twice_on_history :
  printed_by world_history (get_notifications world_history) =
    [PrintMessage "Job #5 finished."; PrintMessage "Job #3 finished."] ∧
  printed_by (get_notifications world_history)
    (get_notifications (get_notifications world_history)) = [PrintNoPending].
Proof. by vm_compute. Qed.

(** ** Identifiers *)

Lemma run_watcher_conn e wt w :
  conn (run_watcher e wt w) =
  if kill0 e (w_pid wt) then conn w
  else insert_notification (w_job_id wt)
         (message_of wt (syscall (Kill0 (w_pid wt)) w)) (clock e (ticks w))
         (update_job (w_job_id wt)
            (finalized (err_text_of wt w) (clock e (ticks w))) (conn w)).
Proof.
  unfold run_watcher. destruct (kill0 e (w_pid wt)); [done|].
  by rewrite finalize_conn.
Qed.

Lemma cancel_job_conn e i w :
  conn (cancel_job e i w) =
  match select_job i (conn w) with
  | Some job =>
      if decide (j_status job ≠ Running) then conn w
      else update_job i
             (λ j, set_finished_at (Some (clock e (ticks w))) (set_status Cancelled j))
             (conn w)
  | None => conn w
  end.
Proof.
  unfold cancel_job. change (conn (init w)) with (conn w).
  destruct (select_job i (conn w)) as [job|]; [|done].
  case_decide; [done|]. unfold now_iso. rewrite conn_print, conn_exec.
  destruct (signal_group_frame e job (init w)) as (Hc & Ht & _).
  change (conn (init w)) with (conn w) in Hc.
  change (ticks (init w)) with (ticks w) in Ht.
  rewrite Ht, <- Hc. reflexivity.
Qed.

Lemma list_rows_ids e rows w :
  j_id <$> jobs (conn (foldl (list_row e) w rows)) = j_id <$> jobs (conn w) ∧
  jobs_seq (conn (foldl (list_row e) w rows)) = jobs_seq (conn w) ∧
  notifications (conn (foldl (list_row e) w rows)) = notifications (conn w) ∧
  files (foldl (list_row e) w rows) = files w ∧
  watchers (foldl (list_row e) w rows) = watchers w.
Proof.
  revert w. induction rows as [|r rows IH]; intros w; [done|]. simpl.
  destruct (IH (list_row e w r)) as (-> & -> & -> & -> & ->).
  rewrite list_row_conn, list_row_files, list_row_watchers.
  destruct (stale e r); [|done]. by rewrite ids_update_job by auto with rows.
Qed.

(** What a read leaves alone. *)
Lemma read_frame e o w :
  is_read o →
  j_id <$> jobs (conn (run e o w)) = j_id <$> jobs (conn w) ∧
  jobs_seq (conn (run e o w)) = jobs_seq (conn w) ∧
  notifications (conn (run e o w)) = notifications (conn w) ∧
  files (run e o w) = files w ∧
  watchers (run e o w) = watchers w.
Proof.
  intros Hread. destruct o; simpl in Hread; try done; simpl.
  - destruct (select_job job_id (conn w)) as [row|] eqn:Hrow.
    + destruct (get_job_status_found e _ w row Hrow) as (-> & _ & -> & ->).
      destruct (stale e row); [|done]. by rewrite ids_update_job by auto with rows.
    + by rewrite get_job_status_missing.
  - destruct (select_job job_id (conn w)) as [row|] eqn:Hrow.
    + destruct (get_job_result_found e _ tail w row Hrow) as (-> & _ & -> & ->).
      destruct (stale e row); [|done]. by rewrite ids_update_job by auto with rows.
    + by rewrite get_job_result_missing.
  - destruct (decide (listed limit w = [])) as [Hnil|Hne].
    + by rewrite list_jobs_empty.
    + rewrite list_jobs_rows by done. apply (list_rows_ids e _ (init w)).
Qed.

(** Where the ids of the rows after a step come from: they were there, or
    they are new and larger than every id handed out before. *)
Lemma ids_after_run e o w :
  jobs_seq (conn w) ≤ jobs_seq (conn (run e o w)) ∧
  ∀ j', j' ∈ jobs (conn (run e o w)) →
        j_id j' ∈ j_id <$> jobs (conn w) ∨ jobs_seq (conn w) < j_id j'.
Proof.
  assert (∀ db', j_id <$> jobs db' = j_id <$> jobs (conn w) →
                 ∀ j', j' ∈ jobs db' →
                       j_id j' ∈ j_id <$> jobs (conn w) ∨ jobs_seq (conn w) < j_id j')
    as Hsame.
  { intros db' <- j' Hj'. left. by apply list_elem_of_fmap_2. }
  destruct o.
  - simpl. rewrite submit_job_conn. destruct (popen e command) as [p|].
    + destruct (next_rowid_fresh (jobs_seq (conn w)) (j_id <$> jobs (conn w)))
        as [Hlt _].
      simpl. split; [lia|]. intros j' [Hj'|Hj']%elem_of_app.
      * left. by apply list_elem_of_fmap_2.
      * apply list_elem_of_singleton in Hj' as ->. by right.
    + split; [lia | by apply Hsame].
  - simpl. case_decide; [|split; [lia | by apply Hsame]].
    rewrite run_watcher_conn. destruct (kill0 e (w_pid wt)).
    + split; [lia | by apply Hsame].
    + split; [simpl; lia|]. intros j' Hj'. left.
      apply list_elem_of_fmap. simpl in Hj'.
      apply list_elem_of_fmap in Hj' as (j0 & -> & Hj0). exists j0.
      split; [|done]. by rewrite where_id_keeps_id by auto with rows.
  - destruct (read_frame e (StatusOf job_id) w I) as (Hids & -> & _).
    split; [lia | by apply Hsame].
  - destruct (read_frame e (ResultOf job_id tail) w I) as (Hids & -> & _).
    split; [lia | by apply Hsame].
  - destruct (read_frame e (ListJobs limit) w I) as (Hids & -> & _).
    split; [lia | by apply Hsame].
  - simpl. rewrite cancel_job_conn.
    destruct (select_job job_id (conn w)) as [job|]; [|split; [lia | by apply Hsame]].
    case_decide; [split; [lia | by apply Hsame]|].
    split; [simpl; lia|]. apply Hsame.
    by rewrite ids_update_job by auto with rows.
  - simpl. split.
    + unfold get_notifications. destruct (pending _) as [|r rows]; [done|].
      apply (foldl_invariant (λ w', jobs_seq (conn w) ≤ jobs_seq (conn w'))); [|done].
      by intros a b Ha.
    + apply Hsame. by rewrite get_notifications_jobs.
  - simpl. destruct (clean_jobs_effect keep w) as (Hjobs & _ & _ & -> & _).
    split; [lia|]. intros j' Hj'. left. rewrite Hjobs in Hj'.
    apply list_elem_of_filter in Hj' as [_ Hj']. by apply list_elem_of_fmap_2.
  - simpl. unfold emit.
    destruct (files w !! p) as [[]|]; rewrite ?conn_with_files;
      (split; [lia | by apply Hsame]).
Qed.

Lemma submit_job_id e command label w :
  (submit_job e command label w).1 =
  match popen e command with
  | Some _ =>
      if popen_watcher e
      then Some (next_rowid (jobs_seq (conn w)) (j_id <$> jobs (conn w)))
      else None
  | None => None
  end.
Proof.
  unfold submit_job, now_iso, insert_job. simpl.
  destruct (popen e command); [|done]. by destruct (popen_watcher e).
Qed.

Lemma jobs_seq_run_all sched w :
  jobs_seq (conn w) ≤ jobs_seq (conn (run_all sched w)).
Proof.
  revert w. induction sched as [|[e o] sched IH]; intros w; [done|].
  change (run_all ((e, o) :: sched) w) with (run_all sched (run e o w)).
  destruct (ids_after_run e o w) as [Hle _]. specialize (IH (run e o w)). lia.
Qed.



(** X2. Job ids are never handed out twice: the id that a submission
    returns is larger than the id of every job the table has ever held, jobs
    cleaned away in the meantime included. *)
Theorem job_ids_never_reused e command label sched w j i :
  wf_world w → j ∈ jobs (conn w) →
  (submit_job e command label (run_all sched w)).1 = Some i →
  j_id j < i.
Proof.
  intros (_ & Hseq & _) Hj Hi. rewrite submit_job_id in Hi.
  destruct (popen e command); [|done]. destruct (popen_watcher e); [|done].
  injection Hi as <-.
  destruct (next_rowid_fresh (jobs_seq (conn (run_all sched w)))
              (j_id <$> jobs (conn (run_all sched w)))) as [Hlt _].
  pose proof (jobs_seq_run_all sched w) as Hle.
  rewrite Forall_forall in Hseq. specialize (Hseq j Hj). simpl in Hseq. lia.
Qed.

Lemma job_ids_never_reused_witness :
  jobs (conn (run_all [(env_live, Clean 0)] world_history)) = [running_job 4] ∧
  (submit_job env_live "make test" None
     (run_all [(env_live, Clean 0)] world_history)).1 = Some 7 ∧
  j_id (finished_job 6 Failed) < 7.
Proof.
  split; [by vm_compute|]. split; [by vm_compute|].
  apply (job_ids_never_reused env_live "make test" None [(env_live, Clean 0)]
           world_history (finished_job 6 Failed) 7).
  - by_evaluation.
  - vm_compute. do 5 right. left.
  - by vm_compute.
Defined.

(** The rows that carry a given id, along a schedule. *)
Lemma same_id_along sched (P : Job → Prop) (ok : Op → Prop) w i :
  (∀ e o w j, ok o → wf_world w → j ∈ jobs (conn w) → P j →
              ∀ j', j' ∈ jobs (conn (run e o w)) → j_id j' = j_id j → P j') →
  Forall (λ eo, ok eo.2) sched →
  wf_world w → i ≤ jobs_seq (conn w) →
  (∀ j, j ∈ jobs (conn w) → j_id j = i → P j) →
  ∀ j', j' ∈ jobs (conn (run_all sched w)) → j_id j' = i → P j'.
Proof.
  intros Hstep Hok. revert w.
  induction Hok as [|[e o] sched Ho _ IH]; intros w Hwf Hi HP; [done|].
  change (run_all ((e, o) :: sched) w) with (run_all sched (run e o w)).
  destruct (ids_after_run e o w) as [Hle Hids].
  apply IH; [by apply wf_world_run | lia |].
  intros j' Hj' Hid. destruct (Hids j' Hj') as [Hin|Hnew]; [|lia].
  apply list_elem_of_fmap in Hin as (j0 & Hid0 & Hj0).
  apply (Hstep e o w j0); [done..| apply HP; [done | congruence] | done | done].
Qed.

(** X3. A job that has reached a terminal status never runs again: along
    every schedule, the watcher's late finalize included, the row under its
    id keeps a terminal status for as long as it exists. *)
Theorem terminal_status_is_final sched w j j' :
  wf_world w → j ∈ jobs (conn w) → is_terminal (j_status j) = true →
  j' ∈ jobs (conn (run_all sched w)) → j_id j' = j_id j →
  is_terminal (j_status j') = true.
Proof.
  intros Hwf Hj Ht Hj' Hid. pose proof Hwf as (Hnd & Hseq & _).
  apply (same_id_along sched (λ r, is_terminal (j_status r) = true)
           (λ _, True) w (j_id j)); try done.
  - intros e o w0 j0 _ Hwf0 Hj0 Ht0 j1 Hj1 Hid1.
    by apply (terminal_never_running e o w0 j0 j1).
  - by apply Forall_forall.
  - rewrite Forall_forall in Hseq. by apply Hseq.
  - intros j0 Hj0 Hid0.
    assert (Some j0 = Some j) as [= ->]; [|done].
    rewrite <- (select_job_unique _ _ Hnd Hj0), Hid0. by apply select_job_unique.
Qed.

Lemma terminal_status_is_final_witness :
  ∃ j',
    select_job 1 (conn (run_all [(env_gone, Watch first_watcher);
                                 (env_gone, ListJobs 10)]
                          (run env_live (Cancel 1) world_launched))) = Some j' ∧
    is_terminal (j_status j') = true.
Proof.
  eexists. split; [vm_compute; reflexivity|].
  apply (terminal_status_is_final
           [(env_gone, Watch first_watcher); (env_gone, ListJobs 10)]
           (run env_live (Cancel 1) world_launched)
           (set_finished_at (Some 1001) (set_status Cancelled launched_job))).
  - by_evaluation.
  - vm_compute. left.
  - reflexivity.
  - vm_compute. left.
  - reflexivity.
Defined.

(** X4. Only the watcher rewrites a finished job: along every schedule in
    which no watcher runs, a row that is terminal stays exactly as it is
    until cleanup removes it. *)
Theorem terminal_rows_change_only_by_watcher sched w j j' :
  wf_world w → j ∈ jobs (conn w) → is_terminal (j_status j) = true →
  Forall (λ eo, ∀ wt, eo.2 ≠ Watch wt) sched →
  j' ∈ jobs (conn (run_all sched w)) → j_id j' = j_id j → j' = j.
Proof.
  intros Hwf Hj Ht Hsched Hj' Hid. pose proof Hwf as (Hnd & Hseq & _).
  apply (same_id_along sched (λ r, r = j) (λ o, ∀ wt, o ≠ Watch wt) w (j_id j));
    try done.
  - intros e o w0 j0 Ho Hwf0 Hj0 -> j1 Hj1 Hid1.
    destruct (wf_world_run e o w0 Hwf0) as (Hnd1 & _).
    pose proof (select_job_unique _ _ Hnd1 Hj1) as Hsel. rewrite Hid1 in Hsel.
    destruct (terminal_row_stable e o w0 j Hwf0 Hj0 Ht Ho) as [Hs|Hs];
      rewrite Hs in Hsel; [by injection Hsel | done].
  - rewrite Forall_forall in Hseq. by apply Hseq.
  - intros j0 Hj0 Hid0.
    assert (Some j0 = Some j) as [= ->]; [|done].
    rewrite <- (select_job_unique _ _ Hnd Hj0), Hid0. by apply select_job_unique.
Qed.

Lemma terminal_rows_change_only_by_watcher_witness :
  ∃ j',
    select_job 5 (conn (run_all [(env_gone, ListJobs 10); (env_live, Cancel 2);
                                 (env_live, Clean 3); (env_live, Notify)]
                          world_history)) = Some j' ∧
    j' = finished_job 5 Done.
Proof.
  eexists. split; [vm_compute; reflexivity|].
  apply (terminal_rows_change_only_by_watcher
           [(env_gone, ListJobs 10); (env_live, Cancel 2);
            (env_live, Clean 3); (env_live, Notify)]
           world_history (finished_job 5 Done)).
  - by_evaluation.
  - vm_compute. do 4 right. left.
  - reflexivity.
  - repeat constructor; discriminate.
  - vm_compute. right. left.
  - reflexivity.
Defined.

(** ** Reads *)






(** ** Submission *)

Lemma filter_none {A} (P : A → Prop) `{!∀ x, Decision (P x)} (l : list A) :
  Forall (λ x, ¬ P x) l → filter P l = [].
Proof.
  induction 1 as [|x l Hx _ IH]; [done|]. by rewrite filter_cons_False.
Qed.

Lemma submit_job_files e command label w :
  let i := next_rowid (jobs_seq (conn w)) (j_id <$> jobs (conn w)) in
  files (submit_job e command label w).2 =
  match popen e command with
  | Some p =>
      <[watcher_path i := Script (mkWatcher i (Z.pos p) (out_path i) (err_path i))]>
        (<[err_path i := Text ""]> (<[out_path i := Text ""]> (files w)))
  | None => <[err_path i := Text ""]> (<[out_path i := Text ""]> (files w))
  end.
Proof.
  unfold submit_job, now_iso, insert_job. simpl.
  destruct (popen e command); [|done]. by destruct (popen_watcher e).
Qed.

Lemma submit_job_stdout e command label w :
  stdout (submit_job e command label w).2 =
  match (submit_job e command label w).1, popen e command with
  | Some i, Some p => stdout w ++ [PrintSubmitted i (Z.pos p)]
  | _, _ => stdout w
  end.
Proof.
  unfold submit_job, now_iso, insert_job. simpl.
  destruct (popen e command); [|done]. by destruct (popen_watcher e).
Qed.

(** X8. A launch that fails leaves no job behind: [submit_job] returns no
    id, the table and the notifications are as before (the inserted row was
    never committed), no watcher is spawned and nothing is printed; what
    stays are the two artifact files, created empty under the id that was
    not used. *)
Theorem failed_launch_leaves_no_row e command label w :
  popen e command = None →
  (submit_job e command label w).1 = None ∧
  conn (submit_job e command label w).2 = conn w ∧
  watchers (submit_job e command label w).2 = watchers w ∧
  printed_by w (submit_job e command label w).2 = [] ∧
  files (submit_job e command label w).2 =
    let i := next_rowid (jobs_seq (conn w)) (j_id <$> jobs (conn w)) in
    <[err_path i := Text ""]> (<[out_path i := Text ""]> (files w)).
Proof.
  intros Hp.
  pose proof (submit_job_id e command label w) as Hid.
  pose proof (submit_job_conn e command label w) as Hdb.
  pose proof (submit_job_watchers e command label w) as Hws.
  pose proof (submit_job_files e command label w) as Hfs.
  pose proof (submit_job_stdout e command label w) as Hout.
  rewrite Hp in *. rewrite Hid in Hout.
  split; [done|]. split; [done|]. split; [done|]. split; [|done].
  apply printed_by_app. by rewrite app_nil_r.
Qed.

Lemma failed_launch_leaves_no_row_witness :
  (submit_job env_no_launch "make test" None world_history).1 = None ∧
  conn (submit_job env_no_launch "make test" None world_history).2
    = conn world_history ∧
  files (submit_job env_no_launch "make test" None world_history).2 !! out_path 7
    = Some (Text "").
Proof.
  destruct (failed_launch_leaves_no_row env_no_launch "make test" None world_history)
    as (Hid & Hdb & _ & _ & Hfs); [reflexivity|].
  split; [done|]. split; [done|]. rewrite Hfs. by vm_compute.
Defined.

(** X9. Submit and look up: after a successful launch the returned id
    selects a row that is ['running'] with the command, the label, the pid of
    the launched process, the output artifact named after the id and nothing
    else filled in; every other id selects what it selected before, the
    notifications are as before, both artifact files exist and are empty, and
    the watcher script for the id is on disk and running. *)
Theorem submit_then_lookup e command label w p :
  popen e command = Some p → popen_watcher e = true →
  ∃ i,
    (submit_job e command label w).1 = Some i ∧
    select_job i (conn (submit_job e command label w).2) =
      Some (mkJob i command label Running (Some (Z.pos p)) (clock e (ticks w))
              None None (Some (out_path i)) None) ∧
    (∀ k, k ≠ i →
          select_job k (conn (submit_job e command label w).2)
          = select_job k (conn w)) ∧
    notifications (conn (submit_job e command label w).2) = notifications (conn w) ∧
    files (submit_job e command label w).2 !! out_path i = Some (Text "") ∧
    files (submit_job e command label w).2 !! err_path i = Some (Text "") ∧
    files (submit_job e command label w).2 !! watcher_path i =
      Some (Script (mkWatcher i (Z.pos p) (out_path i) (err_path i))) ∧
    watchers (submit_job e command label w).2 =
      watchers w ++ [mkWatcher i (Z.pos p) (out_path i) (err_path i)].
Proof.
  intros Hp Hw.
  pose proof (submit_job_id e command label w) as Hid.
  pose proof (submit_job_conn e command label w) as Hdb.
  pose proof (submit_job_watchers e command label w) as Hws.
  pose proof (submit_job_files e command label w) as Hfs.
  rewrite Hp in *. rewrite Hw in *. simpl in Hfs, Hws.
  destruct (next_rowid_fresh (jobs_seq (conn w)) (j_id <$> jobs (conn w)))
    as [_ Hall].
  rewrite Forall_fmap in Hall.
  unfold launched_row in *.
  set (i := next_rowid (jobs_seq (conn w)) (j_id <$> jobs (conn w))) in *.
  exists i. split; [done|]. rewrite Hdb, Hws, Hfs. simpl.
  split; [|split; [|split; [done|]]].
  - unfold select_job. simpl. rewrite filter_app.
    replace (filter (λ j, j_id j = i) (jobs (conn w))) with (@nil Job).
    + by rewrite filter_cons_True.
    + symmetry. apply filter_none. eapply Forall_impl; [exact Hall|].
      intros j Hj. simpl in Hj. lia.
  - intros k Hk. unfold select_job. simpl.
    rewrite filter_app, filter_cons_False by (simpl; congruence).
    by rewrite filter_nil, app_nil_r.
  - split; [|split; [|split; [|done]]].
    + rewrite lookup_insert_ne, lookup_insert_ne, lookup_insert_eq by done. done.
    + rewrite lookup_insert_ne, lookup_insert_eq by done. done.
    + by rewrite lookup_insert_eq.
Qed.

Lemma submit_then_lookup_witness :
  ∃ i,
    (submit_job env_live "make test" (Some "tests") world_history).1 = Some i ∧
    select_job i (conn (submit_job env_live "make test" (Some "tests") world_history).2) =
      Some (mkJob i "make test" (Some "tests") Running (Some 4242) 1006
              None None (Some (out_path i)) None) ∧
    select_job 4 (conn (submit_job env_live "make test" (Some "tests") world_history).2)
      = Some (running_job 4).
Proof.
  destruct (submit_then_lookup env_live "make test" (Some "tests") world_history
              4242%positive) as (i & Hid & Hrow & Hother & _);
    [reflexivity | reflexivity |].
  exists i. split; [done|]. split; [exact Hrow|].
  rewrite Hother; [by vm_compute|].
  intros <-. by vm_compute in Hid.
Defined.

(** ** More on cleanup *)








(** ** Texts *)

Lemma append_cons c s t : String c s +:+ t = String c (s +:+ t).
Proof. reflexivity. Qed.

Lemma append_nil_l t : "" +:+ t = t.
Proof. reflexivity. Qed.

Lemma append_nil_r s : s +:+ "" = s.
Proof. induction s as [|c s IH]; [done | by rewrite append_cons, IH]. Qed.

Lemma append_assoc s1 s2 s3 : (s1 +:+ s2) +:+ s3 = s1 +:+ (s2 +:+ s3).
Proof. induction s1 as [|c s1 IH]; [done | by rewrite !append_cons, IH]. Qed.

Lemma concat_cons x l : String.concat "" (x :: l) = x +:+ String.concat "" l.
Proof. destruct l; [by rewrite append_nil_r | done]. Qed.

Lemma concat_app l1 l2 :
  String.concat "" (l1 ++ l2) = String.concat "" l1 +:+ String.concat "" l2.
Proof.
  induction l1 as [|x l1 IH]; [done|].
  change ((x :: l1) ++ l2) with (x :: (l1 ++ l2)).
  by rewrite !concat_cons, IH, append_assoc.
Qed.

(** Reading a text line by line loses nothing. *)
Lemma concat_readlines_go cur s :
  String.concat "" (readlines_go cur s) = cur +:+ s.
Proof.
  revert cur. induction s as [|c s IH]; intros cur.
  - simpl. destruct cur; [done|]. by rewrite append_nil_r.
  - simpl. case_decide.
    + by rewrite concat_cons, IH, append_assoc.
    + by rewrite IH, append_assoc.
Qed.

Lemma concat_readlines s : String.concat "" (readlines s) = s.
Proof. apply concat_readlines_go. Qed.

Lemma str_take_all n s : (String.length s ≤ n)%nat → str_take n s = s.
Proof.
  revert s. induction n as [|n IH]; intros [|c s] Hlen; simpl in *; try done;
    try lia.
  rewrite IH; [done | lia].
Qed.

Lemma readlines_nil s : readlines s = [] ↔ s = "".
Proof.
  split; [|by intros ->].
  intros H. pose proof (concat_readlines s) as Hs. by rewrite H in Hs.
Qed.

(** X12. The preview in a notification is never longer than 300 characters;
    it is "(no output)" for an empty output artifact, and otherwise the first
    300 characters of the text that the last five lines of the artifact
    make up, so that an output of at most five lines and 300 characters is
    quoted whole. *)
Theorem preview_is_bounded_tail wt w :
  (String.length (preview_of wt w) ≤ 300)%nat ∧
  (files w !! w_out_file wt = Some (Text "") → preview_of wt w = "(no output)") ∧
  (∀ s, files w !! w_out_file wt = Some (Text s) → s ≠ "" →
        ∃ before rest,
          s = before +:+ rest ∧
          before = String.concat "" (take (length (readlines s) - 5) (readlines s)) ∧
          preview_of wt w = str_take 300 rest) ∧
  (∀ s, files w !! w_out_file wt = Some (Text s) → s ≠ "" →
        (length (readlines s) ≤ 5)%nat → (String.length s ≤ 300)%nat →
        preview_of wt w = s).
Proof.
  assert (∀ s, files w !! w_out_file wt = Some (Text s) → s ≠ "" →
               preview_of wt w = str_take 300 (String.concat "" (last_n 5 (readlines s))))
    as Hpre.
  { intros s Hs Hne. unfold preview_of, read_text. rewrite Hs.
    destruct (readlines s) as [|l ls] eqn:Hl; [|done].
    by apply readlines_nil in Hl. }
  split; [|split; [|split]].
  - unfold preview_of. destruct (read_text (w_out_file wt) w) as [s|];
      [|simpl; lia].
    destruct (readlines s); [simpl; lia | apply str_take_length].
  - intros Hs. unfold preview_of, read_text. by rewrite Hs.
  - intros s Hs Hne.
    exists (String.concat "" (take (length (readlines s) - 5) (readlines s))),
           (String.concat "" (last_n 5 (readlines s))).
    split; [|split; [done | by apply Hpre]].
    unfold last_n. by rewrite <- concat_app, take_drop, concat_readlines.
  - intros s Hs Hne Hlines Hlen. rewrite (Hpre s Hs Hne). unfold last_n.
    replace (length (readlines s) - 5)%nat with 0%nat by lia.
    rewrite drop_0, concat_readlines. by apply str_take_all.
Qed.

Lemma preview_is_bounded_tail_witness :
  preview_of first_watcher world_launched = "(no output)".
Proof.
  destruct (preview_is_bounded_tail first_watcher world_launched) as (_ & H & _).
  apply H. reflexivity.
Defined.

Lemma blank_rev_app s1 s2 : blank (String.rev_app s1 s2) = blank s1 && blank s2.
Proof.
  revert s2. induction s1 as [|c s1 IH]; intros s2; simpl; [done|].
  rewrite IH. simpl. destruct (py_isspace c), (blank s1), (blank s2); done.
Qed.

Lemma blank_rev s : blank (String.rev s) = blank s.
Proof. unfold String.rev. rewrite blank_rev_app. simpl. apply andb_true_r. Qed.

Lemma rev_app_nil s1 s2 : String.rev_app s1 s2 = "" → s1 = "" ∧ s2 = "".
Proof.
  revert s2. induction s1 as [|c s1 IH]; intros s2; simpl; [done|].
  intros H. by destruct (IH _ H) as [_ [=]].
Qed.

Lemma lstrip_blank s : lstrip s = "" ↔ blank s = true.
Proof.
  induction s as [|c s IH]; simpl; [done|].
  destruct (py_isspace c); simpl; [done|]. split; discriminate.
Qed.

Lemma lstrip_not_blank s : blank (lstrip s) = blank s.
Proof.
  induction s as [|c s IH]; simpl; [done|].
  destruct (py_isspace c) eqn:Hc; simpl; [done|]. by rewrite Hc.
Qed.

(** [s.strip()] is empty exactly for the texts of white space only. *)
Lemma py_strip_blank s : py_strip s = "" ↔ blank s = true.
Proof.
  unfold py_strip, rstrip. split.
  - intros H. apply rev_app_nil in H as [H _].
    apply lstrip_blank in H. by rewrite blank_rev, lstrip_not_blank in H.
  - intros H.
    assert (lstrip (String.rev (lstrip s)) = "") as ->; [|done].
    apply lstrip_blank. by rewrite blank_rev, lstrip_not_blank.
Qed.

(** X13. A job counts as failed only for visible text on its error stream:
    the watcher records exit code 0 exactly when the error artifact cannot
    be read or holds nothing but white space, and then posts "finished" and
    leaves the error field alone; in every other case it records 1, posts
    "finished with warnings" and stores an excerpt that is not empty. *)
Theorem blank_stderr_is_success e wt w j :
  kill0 e (w_pid wt) = false →
  select_job (w_job_id wt) (conn w) = Some j →
  let quiet :=
    match files w !! w_err_file wt with
    | Some (Text s) => blank s
    | _ => true
    end in
  ∃ j' n,
    select_job (w_job_id wt) (conn (run_watcher e wt w)) = Some j' ∧
    notifications (conn (run_watcher e wt w)) = notifications (conn w) ++ [n] ∧
    (quiet = true →
     j_exit_code j' = Some 0 ∧ j_error j' = j_error j ∧
     n_message n =
       "Job #" +:+ pretty (w_job_id wt) +:+ " finished." +:+
         String newline (preview_of wt w)) ∧
    (quiet = false →
     j_exit_code j' = Some 1 ∧
     (∃ excerpt, j_error j' = Some excerpt ∧ excerpt ≠ "") ∧
     n_message n =
       "Job #" +:+ pretty (w_job_id wt) +:+ " finished with warnings." +:+
         String newline (preview_of wt w)).
Proof.
  intros Hk Hj quiet.
  assert (err_text_of wt w = "" ↔ quiet = true) as Hquiet.
  { unfold err_text_of, read_text, quiet.
    destruct (files w !! w_err_file wt) as [[s|]|]; [apply py_strip_blank|done..]. }
  exists (finalized (err_text_of wt w) (clock e (ticks w)) j),
         (mkNotification
            (next_rowid (notifications_seq (conn w)) (n_id <$> notifications (conn w)))
            (w_job_id wt) (message_of wt w) (clock e (ticks w)) 0).
  split; [|split; [|split]].
  - unfold run_watcher. rewrite Hk, finalize_select.
    change (conn (syscall _ w)) with (conn w). by rewrite Hj.
  - by rewrite run_watcher_conn, Hk.
  - intros Hq. apply Hquiet in Hq. unfold finalized, message_of, status_word_of,
      exit_code_of. rewrite Hq. simpl. by destruct j.
  - intros Hq.
    assert (err_text_of wt w ≠ "") as Hne by (intros H%Hquiet; congruence).
    unfold finalized, message_of, status_word_of, exit_code_of.
    rewrite !decide_False by done. split; [by destruct j|]. split; [|done].
    exists (str_take 500 (err_text_of wt w)). split; [by destruct j|].
    destruct (err_text_of wt w); done.
Qed.

Lemma blank_stderr_is_success_witness :
  ∃ j' n,
    select_job 1 (conn (run_watcher env_gone first_watcher world_launched)) = Some j' ∧
    notifications (conn (run_watcher env_gone first_watcher world_launched)) = [n] ∧
    j_exit_code j' = Some 0 ∧ j_error j' = None ∧
    n_message n = "Job #1 finished." +:+ String newline "(no output)".
Proof.
  destruct (blank_stderr_is_success env_gone first_watcher world_launched launched_job)
    as (j' & n & Hsel & Hn & Hquiet & _); [reflexivity | by vm_compute |].
  exists j', n. split; [done|]. split; [exact Hn|].
  destruct Hquiet as (Hcode & Herr & Hmsg); [by vm_compute|].
  split; [done|]. split; [exact Herr | exact Hmsg].
Defined.

(** ** The watcher and the rest *)

(** X14. The watcher writes to one row only.  Whatever it finds, it creates
    no job row and removes none, leaves every other job's row as it is,
    writes no file and prints nothing; while its process is alive it posts no
    notification either.  When its job's row is already gone, the final
    update matches nothing and the notification is posted all the same. *)
Theorem watcher_touches_only_its_row e wt w :
  let w' := run_watcher e wt w in
  j_id <$> jobs (conn w') = j_id <$> jobs (conn w) ∧
  (∀ k, k ≠ w_job_id wt → select_job k (conn w') = select_job k (conn w)) ∧
  files w' = files w ∧ stdout w' = stdout w ∧ watchers w' = watchers w ∧
  (kill0 e (w_pid wt) = true → conn w' = conn w) ∧
  (kill0 e (w_pid wt) = false → select_job (w_job_id wt) (conn w) = None →
   jobs (conn w') = jobs (conn w) ∧
   ∃ n, notifications (conn w') = notifications (conn w) ++ [n] ∧
        n_job_id n = w_job_id wt ∧ n_message n = message_of wt w).
Proof.
  intros w'. subst w'.
  assert (files (run_watcher e wt w) = files w ∧
          stdout (run_watcher e wt w) = stdout w ∧
          watchers (run_watcher e wt w) = watchers w) as (Hf & Hs & Hw).
  { unfold run_watcher. destruct (kill0 e (w_pid wt)); [done|].
    by destruct (finalize_frame e wt (syscall (Kill0 (w_pid wt)) w))
      as (-> & -> & -> & _). }
  rewrite run_watcher_conn.
  destruct (kill0 e (w_pid wt)) eqn:Hk.
  { do 6 (split; [done|]). discriminate. }
  split; [|split; [|split; [|split; [|split; [|split]]]]]; try done.
  - change (jobs (insert_notification ?i ?m ?t ?db)) with (jobs db).
    apply ids_update_job. auto with rows.
  - intros k Hk'.
    rewrite (select_job_jobs _
               (update_job (w_job_id wt)
                  (finalized (err_text_of wt w) (clock e (ticks w))) (conn w)))
      by done.
    apply select_job_update_ne; auto with rows.
  - intros _ Hnone. split.
    + change (jobs (insert_notification ?i ?m ?t ?db)) with (jobs db).
      rewrite jobs_update_job.
      rewrite <- (list_fmap_id (jobs (conn w))) at 2.
      apply list_fmap_ext. intros i j Hj. simpl.
      apply where_id_ne. intros Heq.
      apply list_elem_of_lookup_2 in Hj.
      pose proof (proj1 (select_job_None (w_job_id wt) (conn w)) Hnone) as HN.
      by apply (HN j).
    + by eexists.
Qed.

Lemma watcher_touches_only_its_row_witness :
  select_job 2 (conn (run_watcher env_gone first_watcher world_launched)) =
  select_job 2 (conn world_launched).
Proof.
  destruct (watcher_touches_only_its_row env_gone first_watcher world_launched)
    as (_ & H & _).
  apply H. simpl. lia.
Defined.

(** X15. Completion is announced once.  After the watcher has finalized a
    job, the next [notify] prints the job's message and changes no job row;
    the [notify] after that finds nothing to print. *)
Theorem completion_is_announced_once e wt w :
  kill0 e (w_pid wt) = false →
  let w1 := run_watcher e wt w in
  let w2 := get_notifications w1 in
  PrintMessage (message_of wt w) ∈ printed_by w1 w2 ∧
  jobs (conn w2) = jobs (conn w1) ∧
  printed_by w2 (get_notifications w2) = [PrintNoPending].
Proof.
  intros Hk w1 w2.
  assert (∃ n, n ∈ notifications (conn w1) ∧ n_delivered n = 0 ∧
               n_message n = message_of wt w) as (n & Hin & Hd & Hm).
  { unfold w1. rewrite run_watcher_conn, Hk. eexists. split.
    - apply list_elem_of_here || (simpl; apply elem_of_app; right; apply list_elem_of_here).
    - done. }
  destruct (get_notifications_effect w1) as [Hn Hs]. fold w2 in Hn, Hs.
  assert (n ∈ pending (conn w1)) as Hp.
  { destruct (pending_spec (conn w1)) as [Hperm _]. rewrite Hperm.
    by apply list_elem_of_filter. }
  split; [|split].
  - unfold printed_by. rewrite Hs, drop_app_length.
    destruct (pending (conn w1)) as [|r rows] eqn:Hrows;
      [by apply elem_of_nil in Hp|].
    rewrite <- Hm. by apply (list_elem_of_fmap_2 (λ n, PrintMessage (n_message n))).
  - unfold w2. apply get_notifications_jobs.
  - destruct (get_notifications_effect w2) as [_ Hs2].
    unfold printed_by. rewrite Hs2, drop_app_length.
    rewrite pending_none; [done|]. rewrite Hn. apply marked_pending.
Qed.

Lemma completion_is_announced_once_witness :
  PrintMessage (message_of first_watcher world_launched)
    ∈ printed_by (run_watcher env_gone first_watcher world_launched)
        (get_notifications (run_watcher env_gone first_watcher world_launched)).
Proof.
  by destruct (completion_is_announced_once env_gone first_watcher world_launched)
    as (H & _); [reflexivity|].
Defined.

(** ** The tail of an output *)

Lemma split_nl_cons s : ∃ x r, split_nl s = x :: r.
Proof.
  induction s as [|c s (x & r & IH)]; [by eexists _, _|].
  simpl. case_decide; [by eexists _, _|]. rewrite IH. by eexists _, _.
Qed.

Lemma join_nl_cons x y l :
  join_nl (x :: y :: l) = x +:+ String newline (join_nl (y :: l)).
Proof. reflexivity. Qed.

Lemma join_nl_app l1 l2 :
  l1 ≠ [] → l2 ≠ [] →
  join_nl (l1 ++ l2) = join_nl l1 +:+ String newline (join_nl l2).
Proof.
  intros H1 H2. induction l1 as [|x l1 IH]; [done|].
  destruct l1 as [|y l1].
  - destruct l2 as [|z l2]; [done|]. apply join_nl_cons.
  - change ((x :: y :: l1) ++ l2) with (x :: y :: (l1 ++ l2)).
    rewrite !join_nl_cons.
    change (y :: (l1 ++ l2)) with ((y :: l1) ++ l2).
    rewrite IH by done. by rewrite append_assoc.
Qed.

(** Splitting at line feeds and joining again gives the text back. *)
Lemma join_split_nl s : join_nl (split_nl s) = s.
Proof.
  induction s as [|c s IH]; [done|]. simpl.
  destruct (split_nl_cons s) as (x & r & Hs). rewrite Hs in IH |- *.
  case_decide as Hc.
  - rewrite join_nl_cons, IH. by subst c.
  - destruct r as [|y r].
    + by rewrite <- IH.
    + rewrite join_nl_cons in IH. rewrite join_nl_cons, append_cons. by rewrite IH.
Qed.

Lemma split_nl_one_line s : Forall (λ l, one_line l = true) (split_nl s).
Proof.
  induction s as [|c s IH]; [by repeat constructor|]. simpl.
  destruct (split_nl_cons s) as (x & r & Hs). rewrite Hs in IH |- *.
  apply Forall_cons in IH as [Hx Hr].
  case_decide as Hc; [by repeat constructor|].
  constructor; [|done]. simpl. rewrite Hx. by rewrite bool_decide_true.
Qed.

Lemma split_nl_one s : one_line s = true → split_nl s = [s].
Proof.
  induction s as [|c s IH]; [done|]. simpl.
  intros [Hc Hs]%andb_prop. apply bool_decide_eq_true_1 in Hc.
  rewrite decide_False by done. by rewrite IH.
Qed.

Lemma split_nl_app x s :
  one_line x = true → split_nl (x +:+ String newline s) = x :: split_nl s.
Proof.
  induction x as [|c x IH]; intros Hx.
  - reflexivity.
  - simpl in Hx. apply andb_prop in Hx as [Hc Hx]. apply bool_decide_eq_true_1 in Hc.
    rewrite append_cons. simpl. rewrite decide_False by done.
    by rewrite IH.
Qed.

(** Joining lines and splitting again gives the lines back. *)
Lemma split_join_nl l :
  l ≠ [] → Forall (λ x, one_line x = true) l → split_nl (join_nl l) = l.
Proof.
  intros Hne Hall. induction Hall as [|x l Hx Hall IH]; [done|].
  destruct l as [|y l]; [by apply split_nl_one|].
  rewrite join_nl_cons, split_nl_app by done. by rewrite IH.
Qed.

Lemma last_n_all {A} n (l : list A) : (length l ≤ n)%nat → last_n n l = l.
Proof. intros. unfold last_n. by replace (length l - n)%nat with 0%nat by lia. Qed.

Lemma last_n_length {A} n (l : list A) :
  length (last_n n l) = Nat.min n (length l).
Proof. unfold last_n. rewrite length_drop. lia. Qed.

(** X16. [result --tail n] prints the end of the output: for a positive
    [n] the printed text is what follows the line feed before the last [n]
    lines, it has [n] lines, or all of them when the output has fewer, and
    an output of at most [n] lines is printed whole; a [tail] of zero or
    less prints the whole output. *)
Theorem tail_output_is_suffix tail output :
  (tail ≤ 0 → tail_output tail output = output) ∧
  (0 < tail →
   length (split_nl (tail_output tail output)) =
     Nat.min (Z.to_nat tail) (length (split_nl output)) ∧
   ((length (split_nl output) ≤ Z.to_nat tail)%nat →
    tail_output tail output = output) ∧
   ((Z.to_nat tail < length (split_nl output))%nat →
    ∃ before, output = before +:+ String newline (tail_output tail output) ∧
              length (split_nl before) =
                (length (split_nl output) - Z.to_nat tail)%nat)).
Proof.
  unfold tail_output. split.
  { intros. by rewrite decide_False by lia. }
  intros Hpos. rewrite decide_True by done.
  pose proof (split_nl_one_line output) as Hall.
  pose proof (join_split_nl output) as Hjoin.
  destruct (split_nl_cons output) as (x & r & Hs).
  assert (Z.to_nat tail ≠ 0%nat) as Hn by lia.
  generalize dependent (Z.to_nat tail). intros n Hn.
  generalize dependent (split_nl output). intros l Hall Hjoin Hs.
  assert (l ≠ []) as Hl by (by rewrite Hs).
  assert (last_n n l ≠ []) as Hlast.
  { intros H%(f_equal length). rewrite last_n_length in H.
    destruct l; [done|]. simpl in H. lia. }
  split; [|split].
  - rewrite split_join_nl, last_n_length; [done..|].
    unfold last_n. by apply Forall_drop.
  - intros Hle. by rewrite last_n_all.
  - intros Hlt. exists (join_nl (take (length l - n) l)).
    assert (take (length l - n) l ≠ []) as Htake.
    { intros H%(f_equal length). rewrite length_take in H. simpl in H. lia. }
    split.
    + unfold last_n. rewrite <- join_nl_app by done. by rewrite take_drop.
    + rewrite split_join_nl, length_take; [lia|done|]. by apply Forall_take.
Qed.

Lemma tail_output_is_suffix_witness :
  length (split_nl (tail_output 2 three_lines)) =
    Nat.min 2 (length (split_nl three_lines)).
Proof.
  destruct (tail_output_is_suffix 2 three_lines) as [_ H].
  destruct H as (Hlen & _ & _); [lia|]. exact Hlen.
Defined.

Lemma split_nl_snoc s :
  split_nl (s +:+ String newline "") = split_nl s ++ [""].
Proof.
  induction s as [|c s IH]; [reflexivity|].
  rewrite append_cons. simpl. rewrite IH.
  case_decide; [done|].
  by destruct (split_nl_cons s) as (x & r & ->).
Qed.

(** X17. The line feed that ends an output counts as the start of one more,
    empty, line: on an output that ends in a line feed, [--tail 1] prints
    the empty text and [--tail (n+1)] prints what [--tail n] prints for the
    output without that line feed, and the line feed. *)
Theorem tail_counts_final_newline n s :
  tail_output 1 (s +:+ String newline "") = "" ∧
  (0 < n →
   tail_output (n + 1) (s +:+ String newline "") =
     tail_output n s +:+ String newline "").
Proof.
  unfold tail_output. rewrite decide_True by lia. rewrite split_nl_snoc.
  split.
  - unfold last_n. rewrite length_app.
    change (Z.to_nat 1) with 1%nat. change (length [""]) with 1%nat.
    replace (length (split_nl s) + 1 - 1)%nat with (length (split_nl s)) by lia.
    by rewrite drop_app_length.
  - intros Hn. rewrite !decide_True by lia.
    replace (Z.to_nat (n + 1)) with (S (Z.to_nat n)) by lia.
    assert (Z.to_nat n ≠ 0%nat) as Hm by lia.
    generalize dependent (Z.to_nat n). intros m Hm.
    destruct (split_nl_cons s) as (x & r & Hs).
    generalize dependent (split_nl s). intros l Hs.
    assert (last_n (S m) (l ++ [""]) = last_n m l ++ [""]) as ->.
    { unfold last_n. rewrite length_app. simpl.
      replace (length l + 1 - S m)%nat with (length l - m)%nat by lia.
      rewrite drop_app_le by lia. done. }
    rewrite join_nl_app; [done| |done].
    intros H%(f_equal length). rewrite last_n_length in H.
    subst l. simpl in H. lia.
Qed.

Lemma tail_counts_final_newline_witness :
  tail_output 2 ("a" +:+ String newline ("b" +:+ String newline "")) =
    tail_output 1 ("a" +:+ String newline "b") +:+ String newline "".
Proof.
  destruct (tail_counts_final_newline 1 ("a" +:+ String newline "b")) as [_ H].
  rewrite <- H by lia. reflexivity.
Defined.

Lemma append_length s1 s2 :
  String.length (s1 +:+ s2) = (String.length s1 + String.length s2)%nat.
Proof.
  induction s1 as [|c s1 IH]; [done|]. rewrite append_cons. simpl. by rewrite IH.
Qed.

(** X18. The shortened column: a text of at most [n] characters is shown
    whole, a longer one as its first [n] characters and three dots, so that
    the column is never wider than [n + 3] and always starts like the text. *)
Theorem shorten_bounds n s :
  (String.length (shorten n s) ≤ n + 3)%nat ∧
  str_take n (shorten n s) = str_take n s ∧
  ((String.length s ≤ n)%nat → shorten n s = s) ∧
  ((n < String.length s)%nat →
   shorten n s = str_take n s +:+ "..." ∧ String.length (shorten n s) = (n + 3)%nat).
Proof.
  assert (∀ m t, (m ≤ String.length t)%nat → String.length (str_take m t) = m) as Hfull.
  { induction m as [|m IH]; intros [|c t] Hlen; simpl in *; try done; try lia.
    rewrite IH; [done | lia]. }
  assert (∀ m t u, (m ≤ String.length t)%nat →
                   str_take m (str_take m t +:+ u) = str_take m t) as Hpre.
  { induction m as [|m IH]; intros [|c t] u Hlen; simpl in *; try done; try lia.
    rewrite IH; [done | lia]. }
  unfold shorten. case_decide as Hlen.
  - split; [|split; [|split]].
    + rewrite append_length, Hfull by lia. simpl. lia.
    + apply Hpre. lia.
    + intros. lia.
    + intros _. split; [done|]. rewrite append_length, Hfull by lia. done.
  - rewrite append_nil_r, (str_take_all n s) by lia.
    split; [lia|]. split; [by rewrite (str_take_all n s) by lia|].
    split; [done|]. intros. lia.
Qed.

Lemma shorten_bounds_witness :
  shorten 5 "sleep 600" = "sleep..." ∧ shorten 60 "sleep 600" = "sleep 600".
Proof.
  split.
  - destruct (shorten_bounds 5 "sleep 600") as (_ & _ & _ & H).
    destruct H as [-> _]; [simpl; lia | reflexivity].
  - destruct (shorten_bounds 60 "sleep 600") as (_ & _ & H & _).
    apply H. simpl. lia.
Defined.


(** ** Results *)






(** ** The audit trail of the guards *)

Section audit.

Variable is_command_safe : string → Config → bool * string.
Variable is_path_allowed : string → Config → bool * string.
Variable path_patterns : string → list string.

(** X21. Every call of [guard_job] writes exactly one audit row, for the
    action [job_submit] and the command asked about, whose result is
    "allowed" exactly when the verdict is [True]; it touches neither the job
    database, nor any file, nor the output.  An approval carries no reason;
    a refusal carries one, which for a disallowed path is the reason of
    [is_path_allowed], while the caller is told only which path it was. *)
Theorem guard_job_audits_once e cfg command w :
  let verdict := (guard_job is_command_safe is_path_allowed path_patterns e cfg command w).1 in
  let w' := (guard_job is_command_safe is_path_allowed path_patterns e cfg command w).2 in
  jobs_db w' = jobs_db w ∧ files w' = files w ∧ stdout w' = stdout w ∧
  watchers w' = watchers w ∧
  ∃ a,
    audit_log w' = audit_log w ++ [a] ∧
    a_timestamp a = clock e (ticks w) ∧ a_action a = "job_submit" ∧
    a_target a = None ∧ a_command a = Some command ∧
    a_result a = (if verdict.1 then "allowed" else "blocked") ∧
    (verdict.1 = true → a_reason a = None ∧ verdict.2 = "Command approved") ∧
    (verdict.1 = false → ∃ r, a_reason a = Some r) ∧
    (∀ p r, (is_command_safe command cfg).1 = true →
            first_disallowed is_path_allowed cfg (path_patterns command) = Some (p, r) →
            verdict = (false, "Command references disallowed path: " +:+ p) ∧
            a_reason a = Some r).
Proof.
  unfold guard_job.
  destruct (is_command_safe command cfg) as [safe reason]. destruct safe; simpl.
  - destruct (first_disallowed _ _ _) as [[p path_reason]|]; simpl.
    + do 4 (split; [done|]). eexists. split; [done|]. simpl.
      do 5 (split; [done|]). split; [done|]. split; [by eexists|].
      by intros p' r' _ [= <- <-].
    + destruct (jobs_db w) as [db|] eqn:Hdb; [case_decide|]; simpl;
        (do 4 (split; [done|])); eexists; (split; [done|]); simpl;
        (do 5 (split; [done|])).
      * split; [done|]. split; [by eexists|]. by intros p' r' _ [=].
      * split; [done|]. split; [done|]. by intros p' r' _ [=].
      * split; [done|]. split; [done|]. by intros p' r' _ [=].
  - do 4 (split; [done|]). eexists. split; [done|]. simpl.
    do 5 (split; [done|]). split; [done|]. split; [by eexists|].
    by intros p' r' [=].
Qed.



End audit.


Lemma guard_job_audits_once_witness :
  ∃ a,
    audit_log
      (guard_job (λ _ _, (true, "Command appears safe")) (λ _ _, (false, "nowhere"))
         (λ _, ["/tmp/x"]) env_live sample_config "ls /tmp/x" world_launched).2 = [a] ∧
    a_result a = "blocked" ∧ a_reason a = Some "nowhere".
Proof.
  destruct (guard_job_audits_once (λ _ _, (true, "Command appears safe"))
              (λ _ _, (false, "nowhere")) (λ _, ["/tmp/x"]) env_live sample_config
              "ls /tmp/x" world_launched)
    as (_ & _ & _ & _ & a & Hlog & _ & _ & _ & _ & Hres & _ & _ & Hpath).
  exists a. split; [exact Hlog|]. split; [exact Hres|].
  by destruct (Hpath "/tmp/x" "nowhere" eq_refl eq_refl) as [_ ->].
Defined.

(** ** The command check *)

Lemma prefix_spec p s : String.prefix p s = true ↔ ∃ r, s = p +:+ r.
Proof.
  revert s. induction p as [|a p IH]; intros s.
  - split; [by exists s | by destruct s].
  - destruct s as [|b s]; simpl.
    + split; [done | by intros [r Hr]].
    + destruct (Ascii.ascii_dec a b) as [->|Hab].
      * rewrite IH. split; intros [r Hr]; exists r.
        -- by rewrite append_cons, <- Hr.
        -- rewrite append_cons in Hr. by injection Hr.
      * split; [done|]. intros [r Hr]. rewrite append_cons in Hr.
        injection Hr as Hba _. by destruct Hab.
Qed.

(** [sub in s] holds exactly when [s] is some text, [sub], and some text. *)
Lemma contains_spec sub s :
  contains sub s = true ↔ ∃ a b, s = a +:+ sub +:+ b.
Proof.
  induction s as [|c s IH].
  - change (contains sub "") with (String.prefix sub "" || false).
    rewrite orb_false_r, prefix_spec. split.
    + intros [r Hr]. by exists "", r.
    + intros (a & b & Hab). destruct a; [by exists b|].
      by rewrite append_cons in Hab.
  - change (contains sub (String c s))
      with (String.prefix sub (String c s) || contains sub s).
    rewrite orb_true_iff, prefix_spec, IH. split.
    + intros [[r Hr]|(a & b & Hab)]; [by exists "", r|].
      exists (String c a), b. by rewrite append_cons, <- Hab.
    + intros (a & b & Hab). destruct a as [|c' a].
      * left. by exists b.
      * right. rewrite append_cons in Hab. injection Hab as _ Hab. by exists a, b.
Qed.

Lemma py_lower_append a b : py_lower (a +:+ b) = py_lower a +:+ py_lower b.
Proof.
  induction a as [|c a IH]; [done|]. rewrite append_cons. simpl.
  by rewrite IH, append_cons.
Qed.

Lemma rev_app_append s1 s2 : String.rev_app s1 s2 = String.rev s1 +:+ s2.
Proof.
  unfold String.rev. revert s2. induction s1 as [|c s1 IH]; intros s2; [done|].
  simpl. rewrite (IH (String c s2)), (IH (String c "")).
  by rewrite append_assoc.
Qed.

Lemma rev_cons c s : String.rev (String c s) = String.rev s +:+ String c "".
Proof. unfold String.rev at 1. simpl. apply rev_app_append. Qed.

Lemma rev_append a b : String.rev (a +:+ b) = String.rev b +:+ String.rev a.
Proof.
  induction a as [|c a IH]; [by rewrite append_nil_r|].
  rewrite append_cons, !rev_cons, IH. by rewrite append_assoc.
Qed.

Lemma rev_involutive s : String.rev (String.rev s) = s.
Proof.
  induction s as [|c s IH]; [done|].
  by rewrite rev_cons, rev_append, IH.
Qed.

(** Stripping does not reach into a text between two visible characters. *)
Lemma lstrip_keeps sub a b :
  match sub with String x _ => py_isspace x = false | EmptyString => False end →
  ∃ a', lstrip (a +:+ sub +:+ b) = a' +:+ sub +:+ b.
Proof.
  intros Hsub. induction a as [|c a IH].
  - exists "". destruct sub as [|x sub]; [done|].
    rewrite append_nil_l, append_cons. simpl. by rewrite Hsub.
  - rewrite append_cons. simpl. destruct (py_isspace c).
    + exact IH.
    + exists (String c a). by rewrite append_cons.
Qed.

Lemma py_strip_keeps sub a b :
  bare sub = true → ∃ a' b', py_strip (a +:+ sub +:+ b) = a' +:+ sub +:+ b'.
Proof.
  unfold bare. intros [Hfirst Hlast]%andb_prop.
  assert (match sub with String x _ => py_isspace x = false | "" => False end) as H1.
  { destruct sub; [done|]. by apply negb_true_iff. }
  assert (match String.rev sub with String x _ => py_isspace x = false | "" => False end)
    as H2.
  { destruct (String.rev sub); [done|]. by apply negb_true_iff. }
  destruct (lstrip_keeps sub a b H1) as [a' Ha'].
  unfold py_strip, rstrip. rewrite Ha'.
  rewrite !rev_append, append_assoc.
  destruct (lstrip_keeps (String.rev sub) (String.rev b) (String.rev a') H2)
    as [b' Hb'].
  rewrite Hb'. exists a', (String.rev b').
  by rewrite !rev_append, !rev_involutive, append_assoc.
Qed.

Section command_check_facts.

Variable re_search : string → string → option bool.

Lemma blocked_command_None c l :
  blocked_command c l = None ↔ ∀ b, b ∈ l → contains (py_lower b) c = false.
Proof.
  induction l as [|x l IH]; simpl.
  - split; [|done]. intros _ b Hb. by apply elem_of_nil in Hb.
  - destruct (contains (py_lower x) c) eqn:Hx.
    + split; [done|]. intros H. specialize (H x (list_elem_of_here _ _)). congruence.
    + rewrite IH. split.
      * intros H b [->|Hb]%elem_of_cons; auto.
      * intros H b Hb. apply H. by right.
Qed.

Lemma blocked_command_Some c l b :
  blocked_command c l = Some b → b ∈ l ∧ contains (py_lower b) c = true.
Proof.
  induction l as [|x l IH]; simpl; [done|].
  destruct (contains (py_lower x) c) eqn:Hx.
  - intros [= <-]. split; [left | done].
  - intros [Hb Hc]%IH. split; [by right | done].
Qed.

Lemma blocked_pattern_None command l :
  blocked_pattern re_search command l = None ↔
  ∀ p, p ∈ l → re_search p command ≠ Some true.
Proof.
  induction l as [|x l IH]; simpl.
  - split; [|done]. intros _ p Hp. by apply elem_of_nil in Hp.
  - destruct (re_search x command) as [[]|] eqn:Hx.
    + split; [done|]. intros H. by destruct (H x (list_elem_of_here _ _)).
    + rewrite IH. split.
      * intros H p [->|Hp]%elem_of_cons; [congruence | auto].
      * intros H p Hp. apply H. by right.
    + rewrite IH. split.
      * intros H p [->|Hp]%elem_of_cons; [congruence | auto].
      * intros H p Hp. apply H. by right.
Qed.

Lemma blocked_pattern_Some command l p :
  blocked_pattern re_search command l = Some p →
  p ∈ l ∧ re_search p command = Some true.
Proof.
  induction l as [|x l IH]; simpl; [done|].
  destruct (re_search x command) as [[]|] eqn:Hx.
  - intros [= <-]. split; [left | done].
  - intros [Hp Hc]%IH. split; [by right | done].
  - intros [Hp Hc]%IH. split; [by right | done].
Qed.

Lemma blocked_pattern_app command l1 l2 :
  blocked_pattern re_search command (l1 ++ l2) =
  match blocked_pattern re_search command l1 with
  | Some p => Some p
  | None => blocked_pattern re_search command l2
  end.
Proof.
  induction l1 as [|x l1 IH]; [done|]. simpl.
  by destruct (re_search x command) as [[]|].
Qed.

(** X23. [is_command_safe] approves a command exactly when no blocked
    command occurs in its lowered, stripped text and no blocked pattern is
    found in it by [re.search]; a pattern that does not compile never
    refuses anything.  The command words are tried before the patterns, and
    the reason names the entry that refused. *)
Theorem is_command_safe_spec command cfg :
  let verdict := is_command_safe re_search command cfg in
  (verdict.1 = true ↔
   (∀ b, b ∈ blocked_commands cfg →
         contains (py_lower b) (py_strip (py_lower command)) = false) ∧
   (∀ p, p ∈ blocked_patterns cfg → re_search p command ≠ Some true)) ∧
  (verdict.1 = true → verdict.2 = "Command appears safe") ∧
  (verdict.1 = false →
   (∃ b, b ∈ blocked_commands cfg ∧
         contains (py_lower b) (py_strip (py_lower command)) = true ∧
         verdict.2 = "Blocked command: contains '" +:+ b +:+ "'") ∨
   ((∀ b, b ∈ blocked_commands cfg →
          contains (py_lower b) (py_strip (py_lower command)) = false) ∧
    ∃ p, p ∈ blocked_patterns cfg ∧ re_search p command = Some true ∧
         verdict.2 = "Blocked pattern: " +:+ p)).
Proof.
  unfold is_command_safe.
  destruct (blocked_command _ (blocked_commands cfg)) as [b|] eqn:Hb.
  - apply blocked_command_Some in Hb as [Hin Hc]. simpl.
    split; [|split; [done|]].
    + split; [done|]. intros [H _]. specialize (H b Hin). congruence.
    + intros _. left. by exists b.
  - pose proof (proj1 (blocked_command_None _ _) Hb) as Hnone.
    destruct (blocked_pattern _ _ (blocked_patterns cfg)) as [p|] eqn:Hp.
    + apply blocked_pattern_Some in Hp as [Hin Hc]. simpl.
      split; [|split; [done|]].
      * split; [done|]. intros [_ H]. by destruct (H p Hin).
      * intros _. right. split; [done|]. by exists p.
    + pose proof (proj1 (blocked_pattern_None _ _) Hp) as Hnone'. simpl.
      split; [|split; done]. by split.
Qed.

(** X24. [block-pattern] only ever makes the guard refuse more.  The
    pattern is appended, also when it is listed already, and one audit row
    records the change.  From then on a command that was refused is refused
    as before and for the same reason, a command that the new pattern matches
    is refused, and for every other command, as for every command when the
    new pattern does not compile, the answer is what it was. *)
Theorem block_pattern_only_refuses_more e pattern command cfg w :
  let '(cfg', out, w') := block_pattern e pattern cfg w in
  let before := is_command_safe re_search command cfg in
  let after := is_command_safe re_search command cfg' in
  blocked_patterns cfg' = blocked_patterns cfg ++ [pattern] ∧
  blocked_commands cfg' = blocked_commands cfg ∧
  allowed_paths cfg' = allowed_paths cfg ∧
  out = SayBlockedPattern pattern ∧
  audit_log w' =
    audit_log w ++
      [mkAuditEntry (clock e (ticks w)) "config_change"
         (Some ("block-pattern " +:+ pattern)) None "allowed" None] ∧
  (before.1 = false → after = before) ∧
  (re_search pattern command = Some true → after.1 = false) ∧
  (re_search pattern command ≠ Some true → after = before).
Proof.
  unfold block_pattern, is_command_safe, with_blocked_pattern. simpl.
  do 5 (split; [done|]).
  destruct (blocked_command _ (blocked_commands cfg)) as [b|]; [done|].
  rewrite blocked_pattern_app. simpl.
  destruct (blocked_pattern _ _ (blocked_patterns cfg)) as [p|]; [done|].
  destruct (re_search pattern command) as [[]|]; simpl; split; try done.
Qed.

(** X25. The blocked command words are looked for anywhere in the command
    and in any letter case: a command in which a blocked entry occurs, in
    whatever mix of capitals, is refused, provided the entry starts and ends
    with a visible character. *)
Theorem blocked_word_anywhere_refuses blocked word before after cfg :
  blocked ∈ blocked_commands cfg →
  bare (py_lower blocked) = true →
  py_lower word = py_lower blocked →
  (is_command_safe re_search (before +:+ word +:+ after) cfg).1 = false.
Proof.
  intros Hin Hbare Hword. unfold is_command_safe.
  destruct (blocked_command _ (blocked_commands cfg)) as [b|] eqn:Hb; [done|].
  pose proof (proj1 (blocked_command_None _ _) Hb _ Hin) as Hnone.
  rewrite !py_lower_append, Hword in Hnone.
  destruct (py_strip_keeps (py_lower blocked) (py_lower before) (py_lower after) Hbare)
    as (a' & b' & Hstrip).
  rewrite Hstrip in Hnone.
  assert (contains (py_lower blocked) (a' +:+ py_lower blocked +:+ b') = true)
    by (apply contains_spec; by exists a', b').
  congruence.
Qed.

End command_check_facts.

Lemma is_command_safe_spec_witness :
  (is_command_safe literal_search "ls -la" guarded_config).2 = "Command appears safe".
Proof.
  destruct (is_command_safe_spec literal_search "ls -la" guarded_config)
    as (_ & H & _).
  apply H. reflexivity.
Defined.

Lemma block_pattern_only_refuses_more_witness :
  (is_command_safe literal_search "sleep 60" guarded_config).1 = true ∧
  (is_command_safe literal_search "sleep 60"
     (block_pattern env_live "SLEEP" guarded_config initial_world).1.1).1 = false.
Proof.
  split; [reflexivity|].
  pose proof (block_pattern_only_refuses_more literal_search env_live "SLEEP"
                "sleep 60" guarded_config initial_world) as H.
  destruct (block_pattern env_live "SLEEP" guarded_config initial_world)
    as [[cfg' out] w'].
  destruct H as (_ & _ & _ & _ & _ & _ & H & _). apply H. reflexivity.
Defined.

Lemma blocked_word_anywhere_refuses_witness :
  (is_command_safe literal_search "cat inFORMATion.txt" guarded_config).1 = false.
Proof.
  apply (blocked_word_anywhere_refuses literal_search "format" "FORMAT"
           "cat in" "ion.txt" guarded_config).
  - by_evaluation.
  - reflexivity.
  - reflexivity.
Defined.

(** ** The path check *)

Section path_check_facts.

Variable normalize_path : string → list string.
Variable path_str : list string → string.
Variable list_str : list string → string.

Lemma allowing_None target l :
  allowing target l = None ↔ ∀ a, a ∈ l → ¬ a `prefix_of` target.
Proof.
  induction l as [|x l IH]; simpl.
  - split; [|done]. intros _ a Ha. by apply elem_of_nil in Ha.
  - case_decide as Hx.
    + split; [done|]. intros H. by destruct (H x (list_elem_of_here _ _)).
    + rewrite IH. split.
      * intros H a [->|Ha]%elem_of_cons; auto.
      * intros H a Ha. apply H. by right.
Qed.

Lemma allowing_Some target l a :
  allowing target l = Some a → a ∈ l ∧ a `prefix_of` target.
Proof.
  induction l as [|x l IH]; simpl; [done|]. case_decide as Hx.
  - intros [= <-]. split; [left | done].
  - intros [Ha Hp]%IH. split; [by right | done].
Qed.

Lemma is_path_allowed_iff path cfg :
  (is_path_allowed normalize_path path_str list_str path cfg).1 = true ↔
  ∃ a, a ∈ allowed_paths cfg ∧ normalize_path a `prefix_of` normalize_path path.
Proof.
  unfold is_path_allowed.
  destruct (allowing _ _) as [a|] eqn:Ha; simpl.
  - apply allowing_Some in Ha as [Hin Hp].
    apply list_elem_of_fmap in Hin as (a0 & -> & Hin). split; [|done]. by exists a0.
  - split; [done|]. intros (a & Hin & Hp).
    pose proof (proj1 (allowing_None _ _) Ha (normalize_path a)) as Hno.
    destruct Hno; [by apply list_elem_of_fmap_2 | done].
Qed.

(** X26. A path is allowed exactly when the components of some allowlist
    entry, normalized, are the first components of the normalized path.  So
    every entry of the allowlist is itself allowed, whatever lies under an
    allowed path is allowed, and an empty allowlist allows nothing; the
    reason of an approval names an entry that covers the path. *)
Theorem is_path_allowed_spec path cfg :
  let verdict := is_path_allowed normalize_path path_str list_str path cfg in
  (verdict.1 = true ↔
   ∃ a, a ∈ allowed_paths cfg ∧ normalize_path a `prefix_of` normalize_path path) ∧
  (path ∈ allowed_paths cfg → verdict.1 = true) ∧
  (allowed_paths cfg = [] → verdict.1 = false) ∧
  (∀ path', verdict.1 = true →
            normalize_path path `prefix_of` normalize_path path' →
            (is_path_allowed normalize_path path_str list_str path' cfg).1 = true) ∧
  (verdict.1 = true →
   ∃ a, a ∈ allowed_paths cfg ∧ normalize_path a `prefix_of` normalize_path path ∧
        verdict.2 = "Path is under " +:+ path_str (normalize_path a)).
Proof.
  intros verdict. split; [apply is_path_allowed_iff|].
  split; [|split; [|split]].
  - intros Hin. apply is_path_allowed_iff. by exists path.
  - intros Hnil. unfold verdict, is_path_allowed. by rewrite Hnil.
  - intros path' (a & Hin & Hp)%is_path_allowed_iff Hunder.
    apply is_path_allowed_iff. exists a. split; [done|]. by etrans.
  - unfold verdict, is_path_allowed.
    destruct (allowing _ _) as [a|] eqn:Ha; simpl; [|done]. intros _.
    apply allowing_Some in Ha as [Hin Hp].
    apply list_elem_of_fmap in Hin as (a0 & -> & Hin). by exists a0.
Qed.


(** ** Editing the allowlist *)

Lemma remove_first_app p l1 l2 :
  p ∉ l1 → remove_first p (l1 ++ p :: l2) = l1 ++ l2.
Proof.
  induction l1 as [|x l1 IH]; intros Hp; simpl.
  - by rewrite decide_True.
  - apply not_elem_of_cons in Hp as [Hx Hp].
    rewrite decide_False by done. by rewrite IH.
Qed.

Lemma remove_first_absent p l : p ∉ l → remove_first p l = l.
Proof.
  induction l as [|x l IH]; intros Hp; simpl; [done|].
  apply not_elem_of_cons in Hp as [Hx Hp].
  rewrite decide_False by done. by rewrite IH.
Qed.

Lemma remove_first_sublist p l : remove_first p l `sublist_of` l.
Proof.
  induction l as [|x l IH]; simpl; [done|].
  case_decide; [by apply sublist_cons | by apply sublist_skip].
Qed.

(** X28. [allow-path p] makes [p] allowed and keeps what was allowed: the
    path is appended to the allowlist unless it is already there, after
    which [is_path_allowed] approves [p], everything under [p], and every
    path it approved before.  Asking again changes nothing and leaves no
    audit row, and an allowlist without duplicates stays so. *)
Theorem allow_path_makes_allowed e p cfg w :
  let '(cfg', out, w') := allow_path e p cfg w in
  p ∈ allowed_paths cfg' ∧
  allowed_paths cfg `prefix_of` allowed_paths cfg' ∧
  (NoDup (allowed_paths cfg) → NoDup (allowed_paths cfg')) ∧
  (∀ path, normalize_path p `prefix_of` normalize_path path →
           (is_path_allowed normalize_path path_str list_str path cfg').1 = true) ∧
  (∀ path, (is_path_allowed normalize_path path_str list_str path cfg).1 = true →
           (is_path_allowed normalize_path path_str list_str path cfg').1 = true) ∧
  allow_path e p cfg' w' = (cfg', SayAlreadyAllowed p, w') ∧
  (p ∈ allowed_paths cfg → cfg' = cfg ∧ w' = w ∧ out = SayAlreadyAllowed p) ∧
  (p ∉ allowed_paths cfg →
   allowed_paths cfg' = allowed_paths cfg ++ [p] ∧ out = SayAdded p ∧
   audit_log w' =
     audit_log w ++
       [mkAuditEntry (clock e (ticks w)) "config_change" (Some ("allow-path " +:+ p))
          None "allowed" None]).
Proof.
  unfold allow_path. destruct (decide (p ∈ allowed_paths cfg)) as [Hin|Hout].
  - split; [done|]. split; [done|]. split; [done|].
    split; [|split; [done|]].
    + intros path Hp. apply is_path_allowed_iff. by exists p.
    + rewrite decide_True by done. done.
  - simpl. split; [apply elem_of_app; right; left|].
    split; [by apply prefix_app_r|].
    split; [|split; [|split; [|split; [|split]]]].
    + intros Hnd. apply NoDup_app. split; [done|]. split; [|apply NoDup_singleton].
      intros x Hx [->|Hnil%elem_of_nil]%elem_of_cons; done.
    + intros path Hp. apply is_path_allowed_iff. exists p. split; [|done].
      simpl. apply elem_of_app. right. left.
    + intros path (a & Ha & Hp)%is_path_allowed_iff.
      apply is_path_allowed_iff. exists a. split; [|done].
      simpl. apply elem_of_app. by left.
    + rewrite decide_True; [done|]. simpl. apply elem_of_app. right. left.
    + done.
    + done.
Qed.

(** X29. [remove-path p] takes the first [p] out of the allowlist and
    nothing else: the other entries keep their order, and an allowlist
    without duplicates no longer holds [p], so that removing [p] right after
    allowing it gives the allowlist back.  A [p] that is listed twice is
    still listed afterwards.  When [p] is not listed, nothing changes and no
    audit row is written. *)
Theorem remove_path_takes_first e p cfg w :
  let '(cfg', out, w') := remove_path e p cfg w in
  allowed_paths cfg' `sublist_of` allowed_paths cfg ∧
  (∀ l1 l2, allowed_paths cfg = l1 ++ p :: l2 → p ∉ l1 →
            allowed_paths cfg' = l1 ++ l2 ∧ out = SayRemoved p ∧
            (p ∈ l2 → p ∈ allowed_paths cfg') ∧
            audit_log w' =
              audit_log w ++
                [mkAuditEntry (clock e (ticks w)) "config_change"
                   (Some ("remove-path " +:+ p)) None "allowed" None]) ∧
  (NoDup (allowed_paths cfg) → p ∉ allowed_paths cfg') ∧
  (p ∉ allowed_paths cfg → cfg' = cfg ∧ w' = w ∧ out = SayNotInAllowlist p) ∧
  (p ∉ allowed_paths cfg →
   allowed_paths (remove_path e p (allow_path e p cfg w).1.1 (allow_path e p cfg w).2).1.1
   = allowed_paths cfg).
Proof.
  unfold remove_path. destruct (decide (p ∈ allowed_paths cfg)) as [Hin|Hout].
  - simpl. split; [apply remove_first_sublist|]. split; [|split; [|split]].
    + intros l1 l2 Hl Hp. rewrite Hl, remove_first_app by done.
      split; [done|]. split; [done|]. split; [|done].
      intros H2. apply elem_of_app. by right.
    + intros Hnd. apply list_elem_of_split in Hin as (l1 & l2 & Hl).
      rewrite Hl in Hnd |- *.
      apply NoDup_app in Hnd as (_ & Hdis & [H2 _]%NoDup_cons).
      rewrite remove_first_app.
      * intros [H|H]%elem_of_app; [|done]. apply (Hdis p H). left.
      * intros H. apply (Hdis p H). left.
    + done.
    + done.
  - split; [done|]. split; [|split; [done|split; [done|]]].
    + intros l1 l2 Hl. destruct Hout. rewrite Hl. apply elem_of_app. right. left.
    + intros _.
      assert (allow_path e p cfg w =
              (with_allowed_paths (allowed_paths cfg ++ [p]) cfg, SayAdded p,
               log_audit e "config_change" (Some ("allow-path " +:+ p)) None
                 "allowed" None w)) as ->
        by (unfold allow_path; by rewrite decide_False).
      simpl. rewrite decide_True by (apply elem_of_app; right; left). simpl.
      by rewrite remove_first_app, app_nil_r.
Qed.

End path_check_facts.

Lemma is_path_allowed_spec_witness :
  (is_path_allowed sample_normalize (λ _, "") (λ _, "") "~/Dev/code-intel/src"
     sample_config).1 = true.
Proof.
  destruct (is_path_allowed_spec sample_normalize (λ _, "") (λ _, "") "~/Dev"
              sample_config) as (_ & Hself & _ & Hunder & _).
  apply Hunder.
  - apply Hself. by_evaluation.
  - by_evaluation.
Defined.

Lemma allow_path_makes_allowed_witness :
  (is_path_allowed sample_normalize (λ _, "") (λ _, "") "/srv/data/x"
     (allow_path env_live "/srv/data" sample_config initial_world).1.1).1 = true.
Proof.
  pose proof (allow_path_makes_allowed sample_normalize (λ _, "") (λ _, "")
                env_live "/srv/data" sample_config initial_world) as H.
  destruct (allow_path env_live "/srv/data" sample_config initial_world)
    as [[cfg' out] w'].
  destruct H as (_ & _ & _ & H & _). apply H. by_evaluation.
Defined.

Lemma remove_path_takes_first_witness :
  allowed_paths
    (remove_path env_live "~/Dev"
       (with_allowed_paths ["~/Dev"; "/srv"; "~/Dev"] sample_config) initial_world).1.1
  = ["/srv"; "~/Dev"].
Proof.
  pose proof (remove_path_takes_first env_live "~/Dev"
                (with_allowed_paths ["~/Dev"; "/srv"; "~/Dev"] sample_config)
                initial_world) as H.
  destruct (remove_path env_live "~/Dev" _ initial_world) as [[cfg' out] w'].
  destruct H as (_ & H & _).
  destruct (H [] ["/srv"; "~/Dev"] eq_refl) as [Heq _];
    [apply not_elem_of_nil | exact Heq].
Defined.

(** ** The configuration file *)

Lemma merge_defaults_lookup l cfg k :
  foldl merge_default cfg l !! k =
  match cfg !! k with
  | Some v => Some v
  | None => (list_to_map l : gmap string Json) !! k
  end.
Proof.
  revert cfg. induction l as [|[k' v'] l IH]; intros cfg.
  - simpl. rewrite lookup_empty. by destruct (cfg !! k).
  - change (foldl merge_default cfg ((k', v') :: l))
      with (foldl merge_default (merge_default cfg (k', v')) l).
    rewrite IH. unfold merge_default. simpl.
    destruct (decide (k = k')) as [->|Hk].
    + rewrite lookup_insert_eq.
      destruct (cfg !! k') as [v|] eqn:Hv; [by rewrite Hv|].
      by rewrite lookup_insert_eq.
    + rewrite (lookup_insert_ne (list_to_map l)) by done.
      destruct (cfg !! k') as [v|] eqn:Hv; [done|].
      by rewrite lookup_insert_ne by done.
Qed.

(** X30. [load_config] fills in what the file leaves out and nothing more:
    every key of the file keeps the value the file gives it, whatever that
    is, every other key of [DEFAULT_CONFIG] gets its default, so all seven
    settings are there.  A file that exists is never written, the merged
    defaults included; only a missing file is created, with the defaults,
    and loading once more returns the same configuration. *)
Theorem load_config_merges_defaults file :
  let cfg := (load_config file).1 in
  let file' := (load_config file).2 in
  (∀ k, cfg !! k =
        match file ≫= (λ m, m !! k) with
        | Some v => Some v
        | None => (list_to_map DEFAULT_CONFIG : gmap string Json) !! k
        end) ∧
  (∀ k, k ∈ DEFAULT_CONFIG.*1 → is_Some (cfg !! k)) ∧
  (∀ m, file = Some m → file' = Some m ∧ m ⊆ cfg) ∧
  (file = None → file' = Some cfg) ∧
  load_config file' = (cfg, file').
Proof.
  intros cfg file'.
  assert (∀ k, cfg !! k =
               match file ≫= (λ m, m !! k) with
               | Some v => Some v
               | None => (list_to_map DEFAULT_CONFIG : gmap string Json) !! k
               end) as Hlookup.
  { intros k. unfold cfg, load_config. destruct file as [m|]; [|done].
    exact (merge_defaults_lookup DEFAULT_CONFIG m k). }
  split; [exact Hlookup|]. split; [|split; [|split]].
  - intros k Hk. rewrite Hlookup.
    destruct (file ≫= (λ m, m !! k)); [done|].
    apply list_elem_of_fmap in Hk as ([k' v] & -> & Hin).
    exists v. change ((k', v).1) with k'.
    apply elem_of_list_to_map_1; [|done].
    apply (bool_decide_unpack _). by vm_compute.
  - intros m ->. split; [done|]. apply map_subseteq_spec. intros k v Hkv.
    rewrite Hlookup. simpl. by rewrite Hkv.
  - by intros ->.
  - unfold cfg, file'. destruct file as [m|]; [done|].
    change (load_config (Some (list_to_map DEFAULT_CONFIG)))
      with (foldl merge_default (list_to_map DEFAULT_CONFIG) DEFAULT_CONFIG,
            Some (list_to_map DEFAULT_CONFIG : gmap string Json)).
    f_equal; apply map_eq; intros k; rewrite merge_defaults_lookup;
      by destruct (list_to_map DEFAULT_CONFIG !! k).
Qed.

Lemma load_config_merges_defaults_witness :
  (load_config (Some {[ "max_concurrent_jobs" := JStr "many" ]})).1
    !! "max_concurrent_jobs" = Some (JStr "many") ∧
  (load_config (Some {[ "max_concurrent_jobs" := JStr "many" ]})).1
    !! "version" = Some (JNum 1) ∧
  (load_config (Some {[ "max_concurrent_jobs" := JStr "many" ]})).2
    = Some {[ "max_concurrent_jobs" := JStr "many" ]}.
Proof.
  destruct (load_config_merges_defaults (Some {[ "max_concurrent_jobs" := JStr "many" ]}))
    as (Hlookup & _ & Hfile & _).
  split; [|split].
  - rewrite Hlookup. reflexivity.
  - rewrite Hlookup. reflexivity.
  - by destruct (Hfile _ eq_refl) as [-> _].
Defined.
